(** * go-doh-client: a shallow embedding of the racing, selection and cache core

    The Go package [doh] is embedded function by function: the cache of
    [cache.go], [FixSubnet] of [utils.go], the types of [dns.go], and of the
    client [New], [EnableCache], [Query], [fastQuery], [checkCache],
    [goQuery], [collectResponses], [updateCache], [query] and [doRequest].

    Go strings are byte sequences ([string] of [ascii]), Go [int] and
    [int64] are [Z] with the 64-bit wrap-around written out, [float64] is the
    kernel's binary64 [float], Go maps are [gmap]s whose [range] order is an
    arbitrary permutation of their entries, and the result channel of a race
    is the list of the values sent on it, in the order the attempts
    complete.  What the package takes from Go's library is either embedded
    too ([strings.TrimSpace], [strings.Cut], [crypto/sha1], [encoding/hex])
    or a parameter ([encoding/json], [net/http], [net/netip]). *)

From Stdlib Require Import ZArith Lia Floats Uint63 DecimalString Ascii.
From stdpp Require Import gmap strings list fin_maps.

Open Scope Z_scope.

(** ** What a call can do *)

(** A Go call returns, panics (index out of range, nil dereference), or never
    returns because it waits on a channel nobody sends on. *)
Inductive outcome (A : Type) : Type :=
  | Returns (a : A)
  | Panics
  | Blocks.
Arguments Returns {A} a.
Arguments Panics {A}.
Arguments Blocks {A}.

(** ** Go integers *)

Module GoInt.

(** Two's complement reduction of a mathematical integer to [int64]
    (Go's [int] on a 64-bit platform). *)
Definition wrap64 (z : Z) : Z := (z + 2 ^ 63) mod 2 ^ 64 - 2 ^ 63.

Definition in_int64 (z : Z) : Prop := - 2 ^ 63 <= z < 2 ^ 63.

Definition add (x y : Z) : Z := wrap64 (x + y).
Definition mul (x y : Z) : Z := wrap64 (x * y).

(** [fmt]'s [%d]. *)
Definition itoa (z : Z) : string := NilZero.string_of_int (Z.to_int z).

(** [float64(n)] for an [int]: the nearest binary64, ties to even. *)
Definition float64_of_int (z : Z) : float :=
  if z =? - 2 ^ 63 then PrimFloat.opp (PrimFloat.mul (PrimFloat.of_uint63 (Uint63.of_Z (2 ^ 62))) 2%float)
  else if z <? 0 then PrimFloat.opp (PrimFloat.of_uint63 (Uint63.of_Z (- z)))
  else PrimFloat.of_uint63 (Uint63.of_Z z).

End GoInt.

(** The order of two finite, nonzero binary floats, spelled out. *)
Definition finite_lt (s1 : bool) (m1 : positive) (e1 : Z) (s2 : bool) (m2 : positive) (e2 : Z)
  : Prop :=
  match s1, s2 with
  | true, false => True
  | false, true => False
  | false, false => e1 < e2 \/ (e1 = e2 /\ (m1 < m2)%positive)
  | true, true => e2 < e1 \/ (e1 = e2 /\ (m2 < m1)%positive)
  end.

(** ** Go strings *)

Module GoString.

(** A string from its bytes. *)
Definition bytes (l : list nat) : string :=
  fold_right (fun n s => String (Ascii.ascii_of_nat n) s) EmptyString l.

(** The UTF-8 encodings of the runes above U+007F for which
    [unicode.IsSpace] holds: U+0085, U+00A0, U+1680, U+2000..U+200A,
    U+2028, U+2029, U+202F, U+205F, U+3000. *)
Definition unicodeSpaces : list string :=
  (bytes [194; 133] :: bytes [194; 160] :: bytes [225; 154; 128] ::
   map (fun b => bytes [226; 128; b]) (seq 128 11) ++
   [bytes [226; 128; 168]; bytes [226; 128; 169]; bytes [226; 128; 175];
    bytes [226; 129; 159]; bytes [227; 128; 128]])%nat.

(** The white-space runes, each as its byte sequence: [asciiSpace] of
    package [strings] (tab, line feed, vertical tab, form feed, carriage
    return, space), then the others. *)
Definition spaceRunes : list string :=
  map (fun n => bytes [n]) [9; 10; 11; 12; 13; 32]%nat ++ unicodeSpaces.

Fixpoint strip_prefix (p s : string) : option string :=
  match p, s with
  | EmptyString, _ => Some s
  | String a p', String b s' => if Ascii.eqb a b then strip_prefix p' s' else None
  | String _ _, EmptyString => None
  end.

Fixpoint first_stripped (ps : list string) (s : string) : option string :=
  match ps with
  | [] => None
  | p :: ps' =>
      match strip_prefix p s with
      | Some r => Some r
      | None => first_stripped ps' s
      end
  end.

(** The rest of [s] after its first rune, when that rune is white space. *)
Definition leading_space (s : string) : option string :=
  first_stripped spaceRunes s.

Fixpoint trim_left_fuel (n : nat) (s : string) : string :=
  match n with
  | O => s
  | S n' =>
      match leading_space s with
      | Some r => trim_left_fuel n' r
      | None => s
      end
  end.

(** [strings.TrimLeftFunc(s, unicode.IsSpace)]: every rune removed takes
    at least one byte, so [length s] steps are enough. *)
Definition TrimLeft (s : string) : string := trim_left_fuel (String.length s) s.

Definition rev (s : string) : string :=
  String.string_of_list_ascii (List.rev (String.list_ascii_of_string s)).

(** What is left of [s] before its last rune, when that rune is white
    space: [utf8.DecodeLastRuneInString] finds a white-space rune exactly
    when [s] ends with one of the encodings. *)
Definition trailing_space_rev (r : string) : option string :=
  first_stripped (map rev spaceRunes) r.

Fixpoint trim_right_fuel (n : nat) (r : string) : string :=
  match n with
  | O => r
  | S n' =>
      match trailing_space_rev r with
      | Some r' => trim_right_fuel n' r'
      | None => r
      end
  end.

(** [strings.TrimRightFunc(s, unicode.IsSpace)], computed on the reversed
    string. *)
Definition TrimRight (s : string) : string :=
  rev (trim_right_fuel (String.length s) (rev s)).

(** [strings.TrimSpace]: leading and trailing white space removed. *)
Definition TrimSpace (s : string) : string := TrimRight (TrimLeft s).

(** [before, _, _ := strings.Cut(s, "/")]: the text before the first
    ['/'], or all of [s] when it has none. *)
Fixpoint CutSlash (s : string) : string :=
  match s with
  | EmptyString => EmptyString
  | String c s' => if Ascii.eqb c "/"%char then EmptyString else String c (CutSlash s')
  end.

(** A string made of white-space runes only. *)
Inductive whitespace_only : string -> Prop :=
  | ws_nil : whitespace_only EmptyString
  | ws_rune (p s : string) : In p spaceRunes -> whitespace_only s -> whitespace_only (p +:+ s).

End GoString.

Import GoString.

(** ** [crypto/sha1] and [encoding/hex] *)

Module Sha1.

Definition mask32 (x : Z) : Z := Z.land x 0xFFFFFFFF.
Definition add32 (x y : Z) : Z := mask32 (x + y).
Definition not32 (x : Z) : Z := Z.lxor x 0xFFFFFFFF.
Definition rotl (n x : Z) : Z :=
  mask32 (Z.lor (Z.shiftl x n) (Z.shiftr x (32 - n))).

(** [[]byte(s)] *)
Definition bytes_of_string (s : string) : list Z :=
  map (fun c => Z.of_nat (Ascii.nat_of_ascii c)) (String.list_ascii_of_string s).

(** The [n] low bytes of [x], most significant first. *)
Fixpoint big_endian (n : nat) (x : Z) : list Z :=
  match n with
  | O => []
  | S n' => Z.land (Z.shiftr x (8 * Z.of_nat n')) 255 :: big_endian n' x
  end.

(** The message, a 1 bit, zeros up to 56 modulo 64, the bit length. *)
Definition pad (msg : list Z) : list Z :=
  let len := Z.of_nat (length msg) in
  msg ++ [128] ++ repeat 0 (Z.to_nat ((55 - len) mod 64)) ++ big_endian 8 (8 * len).

Fixpoint words (bs : list Z) : list Z :=
  match bs with
  | b0 :: b1 :: b2 :: b3 :: bs' =>
      Z.lor (Z.shiftl b0 24) (Z.lor (Z.shiftl b1 16) (Z.lor (Z.shiftl b2 8) b3)) :: words bs'
  | _ => []
  end.

Definition word_at (w : list Z) (i : nat) : Z := nth i w 0.

(** The message schedule: [n] more words after those of [w]. *)
Fixpoint schedule (n : nat) (w : list Z) : list Z :=
  match n with
  | O => w
  | S n' =>
      let t := length w in
      let x := Z.lxor (Z.lxor (word_at w (t - 3)) (word_at w (t - 8)))
                      (Z.lxor (word_at w (t - 14)) (word_at w (t - 16))) in
      schedule n' (w ++ [rotl 1 x])
  end.

Definition round_fk (t : nat) (b c d : Z) : Z * Z :=
  if (t <? 20)%nat then (Z.lor (Z.land b c) (Z.land (not32 b) d), 0x5A827999)
  else if (t <? 40)%nat then (Z.lxor (Z.lxor b c) d, 0x6ED9EBA1)
  else if (t <? 60)%nat then
    (Z.lor (Z.lor (Z.land b c) (Z.land b d)) (Z.land c d), 0x8F1BBCDC)
  else (Z.lxor (Z.lxor b c) d, 0xCA62C1D6).

Definition digest : Type := Z * Z * Z * Z * Z.

Definition round (w : list Z) (st : digest) (t : nat) : digest :=
  let '(a, b, c, d, e) := st in
  let '(f, k) := round_fk t b c d in
  let temp := add32 (add32 (add32 (add32 (rotl 5 a) f) e) k) (word_at w t) in
  (temp, a, rotl 30 b, c, d).

Definition block (h : digest) (chunk : list Z) : digest :=
  let w := schedule 64 (words chunk) in
  let '(a, b, c, d, e) := fold_left (round w) (seq 0 80) h in
  let '(h0, h1, h2, h3, h4) := h in
  (add32 h0 a, add32 h1 b, add32 h2 c, add32 h3 d, add32 h4 e).

Fixpoint blocks (n : nat) (h : digest) (bs : list Z) : digest :=
  match n with
  | O => h
  | S n' => blocks n' (block h (firstn 64 bs)) (skipn 64 bs)
  end.

Definition init : digest :=
  (0x67452301, 0xEFCDAB89, 0x98BADCFE, 0x10325476, 0xC3D2E1F0).

(** [h := sha1.New(); h.Write(msg); h.Sum(nil)] *)
Definition Sum (msg : list Z) : list Z :=
  let p := pad msg in
  let '(h0, h1, h2, h3, h4) := blocks (length p / 64) init p in
  big_endian 4 h0 ++ big_endian 4 h1 ++ big_endian 4 h2 ++ big_endian 4 h3 ++ big_endian 4 h4.

Definition hex_digit (d : Z) : ascii :=
  Ascii.ascii_of_nat (Z.to_nat (if d <? 10 then 48 + d else 87 + d)).

(** [hex.EncodeToString] *)
Definition EncodeToString (bs : list Z) : string :=
  fold_right (fun b s => String (hex_digit (Z.shiftr b 4)) (String (hex_digit (Z.land b 15)) s))
             EmptyString bs.

(** The hex digest of a string, as the cache key is formed. *)
Definition hexsum (s : string) : string := EncodeToString (Sum (bytes_of_string s)).

End Sha1.

(** ** [cache.go]: the in-memory cache with expiry *)

Module Cache.

Section Store.
(** The stored [interface{}] values. *)
Context {V : Type}.

(** [cacheItem] *)
Record cacheItem : Type := CacheItem {
  value : V;
  expiration : Z
}.

(** [cache]: the [items] map (the lock has no sequential content). *)
Record cache : Type := MkCache {
  items : gmap string cacheItem
}.

(** [newCache] *)
Definition newCache : cache := {| items := ∅ |}.

(** [Get], with [now] the reading of [time.Now().UnixNano()]. *)
Definition Get (c : cache) (key : string) (now : Z) : option V :=
  match items c !! key with
  | None => None
  | Some item => if now >? expiration item then None else Some (value item)
  end.

(** One second, [int64(time.Second)], in nanoseconds. *)
Definition Second : Z := 1000000000.

(** [Set], with [now] the reading of [time.Now().UnixNano()]. *)
Definition Set_ (c : cache) (key : string) (v : V) (ttl : Z) (now : Z) : cache :=
  let expiration := GoInt.add now (GoInt.mul ttl Second) in
  {| items := <[key := {| value := v; expiration := expiration |}]> (items c) |}.

End Store.
Arguments cacheItem : clear implicits.
Arguments cache : clear implicits.

End Cache.

(** ** [dns.go]: the query and response types *)

(** [Question] *)
Record Question : Type := MkQuestion {
  QName : string;
  QType : Z
}.

(** [Answer] *)
Record Answer : Type := MkAnswer {
  AName : string;
  AType : Z;
  TTL : Z;
  Data : string
}.

(** [Response]; the fields [Question] and [Answer] are [Questions] and
    [Answers] here. *)
Record Response : Type := MkResponse {
  Status : Z;
  TC : bool;
  RD : bool;
  RA : bool;
  AD : bool;
  CD : bool;
  Questions : list Question;
  Answers : list Answer;
  Provider : string
}.

(** [&Response{Provider: u}] *)
Definition emptyResponse (u : string) : Response :=
  {| Status := 0; TC := false; RD := false; RA := false; AD := false; CD := false;
     Questions := []; Answers := []; Provider := u |}.

(** Go's [error] values, by their message. *)
Definition error : Type := string.

(** [fmt.Errorf] with a trailing [: %w]. *)
Definition wrapError (msg : string) (e : error) : error := msg +:+ ": " +:+ e.

(** ** [utils.go]: [FixSubnet] *)

Module Utils.

Section Netip.
(** Package [net/netip], as far as [FixSubnet] uses it. *)
Context {Addr Prefix : Type}.
Variable ParsePrefix : string -> Prefix + error.
Variable ParseAddr : string -> Addr + error.
Variable Is4 : Addr -> bool.
Variable PrefixFrom : Addr -> Z -> Prefix.
Variable PrefixString : Prefix -> string.

(** [FixSubnet] *)
Definition FixSubnet (s : string) : string + error :=
  let s := TrimSpace s in
  match ParsePrefix s with
  | inl p => inl (PrefixString p)
  | inr _ =>
      let ipPart := CutSlash s in
      match ParseAddr ipPart with
      | inr err => inr (wrapError "invalid IP address" err)
      | inl addr =>
          let bits := if Is4 addr then 24 else 56 in
          let p := PrefixFrom addr bits in
          inl (PrefixString p)
      end
  end.

End Netip.

End Utils.

(** ** The IPv4 part of [net/netip]

    Dotted-quad addresses and their prefixes, as [netip.ParseAddr],
    [netip.ParsePrefix], [netip.PrefixFrom] and [Prefix.String] treat them;
    text with a [':'] (IPv6) is outside this fragment and is rejected here,
    and the error texts are shortened.  It serves to run [FixSubnet] on IPv4
    text. *)

Module Netip4.

(** An IPv4 address: its four octets. *)
Definition Addr : Type := (Z * Z * Z * Z)%type.

(** A prefix: the address and the number of bits. *)
Definition Prefix : Type := (Addr * Z)%type.

Definition is_digit (c : ascii) : bool :=
  let n := Ascii.nat_of_ascii c in (48 <=? n)%nat && (n <=? 57)%nat.

(** The value of a string of decimal digits, read after [acc]. *)
Fixpoint decimal (acc : Z) (s : string) : option Z :=
  match s with
  | EmptyString => Some acc
  | String c s' =>
      if is_digit c then decimal (10 * acc + (Z.of_nat (Ascii.nat_of_ascii c) - 48)) s'
      else None
  end.

(** A decimal number without sign or leading zero, of at most [maxlen]
    digits. *)
Definition number (maxlen : nat) (s : string) : option Z :=
  match s with
  | EmptyString => None
  | String c s' =>
      if (maxlen <? String.length s)%nat then None
      else if Ascii.eqb c "0"%char && negb (String.eqb s' "") then None
      else decimal 0 s
  end.

(** The fields of [s] between the separators [sep]. *)
Fixpoint split (sep : ascii) (s : string) : list string :=
  match s with
  | EmptyString => [EmptyString]
  | String c s' =>
      if Ascii.eqb c sep then EmptyString :: split sep s'
      else match split sep s' with
           | f :: fs => String c f :: fs
           | [] => [String c EmptyString]
           end
  end.

Definition octet (s : string) : option Z :=
  match number 3 s with
  | Some n => if n <=? 255 then Some n else None
  | None => None
  end.

Definition ParseAddr (s : string) : Addr + error :=
  match map octet (split "."%char s) with
  | [Some a; Some b; Some c; Some d] => inl (a, b, c, d)
  | _ => inr ("ParseAddr(" +:+ s +:+ "): unable to parse IP")
  end.

Definition Is4 (a : Addr) : bool := true.

Definition PrefixFrom (a : Addr) (bits : Z) : Prefix :=
  (a, if (0 <=? bits) && (bits <=? 32) then bits else -1).

Definition AddrString (a : Addr) : string :=
  let '(a, b, c, d) := a in
  GoInt.itoa a +:+ "." +:+ GoInt.itoa b +:+ "." +:+ GoInt.itoa c +:+ "." +:+ GoInt.itoa d.

Definition PrefixString (p : Prefix) : string :=
  if p.2 <? 0 then "invalid Prefix" else AddrString p.1 +:+ "/" +:+ GoInt.itoa p.2.

(** The text before and after the last ['/'] of [s], if it has one. *)
Definition cutLast (s : string) : option (string * string) :=
  match List.rev (split "/"%char s) with
  | last :: (_ :: _) as front =>
      Some (String.concat "/" (List.rev front), last)
  | _ => None
  end.

Definition ParsePrefix (s : string) : Prefix + error :=
  match cutLast s with
  | None => inr ("netip.ParsePrefix(" +:+ s +:+ "): no '/'")
  | Some (ip, bitsStr) =>
      match ParseAddr ip with
      | inr err => inr err
      | inl a =>
          match number 19 bitsStr with
          | Some bits =>
              if bits <=? 32 then inl (PrefixFrom a bits)
              else inr ("netip.ParsePrefix(" +:+ s +:+ "): prefix length out of range")
          | None => inr ("netip.ParsePrefix(" +:+ s +:+ "): bad bits after slash")
          end
      end
  end.

(** [FixSubnet] over this fragment. *)
Definition FixSubnet : string -> string + error :=
  Utils.FixSubnet ParsePrefix ParseAddr Is4 PrefixFrom PrefixString.

End Netip4.

(** ** The client: provider selection, the race, the cache key *)

Module Doh.

(** One entry of [stats]: the slots [0] (failed attempts), [1] (attempts)
    and [2] (failure rate, in percent) of the [[]interface{}] value. *)
Record stat : Type := MkStat {
  failures : Z;
  attempts : Z;
  rate : float
}.

(** [DoH]: the provider list, the cache ([None] for [nil]) and the
    statistics.  The stop channel, the HTTP client and the lock carry no
    sequential state. *)
Record DoH : Type := MkDoH {
  urls : list string;
  cache : option (Cache.cache Response);
  stats : gmap Z stat
}.

Definition defaultProviders : list string :=
  [ "https://9.9.9.9:5053/dns-query"; "https://1.1.1.1/dns-query";
    "https://8.8.8.8/resolve"; "https://1.12.12.12/dns-query" ].

(** [New(WithProviders(providers))]; [New()] is [New []]. *)
Definition New (providers : list string) : DoH :=
  {| urls := if (length providers =? 0)%nat then defaultProviders else providers;
     cache := None;
     stats := ∅ |}.

(** [EnableCache] *)
Definition EnableCache (c : DoH) (enable : bool) : DoH :=
  {| urls := urls c;
     cache := if enable then Some Cache.newCache else None;
     stats := stats c |}.

(** The ticker's branch in the goroutine of [New]: every entry deleted. *)
Definition resetStats (c : DoH) : DoH :=
  {| urls := urls c; cache := cache c; stats := ∅ |}.

(** *** [Query]: which providers to ask *)

(** One iteration of [for k, v := range c.stats]. *)
Definition scanStep (acc : Z * float) (kv : Z * stat) : Z * float :=
  let '(minIndex, minRate) := acc in
  if PrimFloat.ltb (rate kv.2) minRate then (kv.1, rate kv.2) else acc.

(** The loop, from [minIndex := -1] and [minRate := 101.0], over the
    entries in the order [range] yields them. *)
Definition scanStats (it : list (Z * stat)) : Z * float :=
  fold_left scanStep it (-1, 101%float).

(** [c.urls[k]]: [None] is the index-out-of-range panic. *)
Definition urlAt (us : list string) (k : Z) : option string :=
  if k <? 0 then None else us !! Z.to_nat k.

(** [for i, u := range c.urls { urlsToQuery[i] = u }], from index [i]. *)
Fixpoint addAll (i : Z) (us : list string) (m : gmap Z string) : gmap Z string :=
  match us with
  | [] => m
  | u :: us' => addAll (i + 1) us' (<[i := u]> m)
  end.

(** The body of [Query] up to the call of [fastQuery]: [urlsToQuery].  [it]
    is the order in which [range c.stats] yields the entries. *)
Definition selectProviders (c : DoH) (it : list (Z * stat)) : outcome (gmap Z string) :=
  let picked : outcome (gmap Z string) :=
    if (0 <? size (stats c))%nat then
      let '(minIndex, _) := scanStats it in
      if minIndex =? -1 then Returns ∅
      else match urlAt (urls c) minIndex with
           | Some u => Returns (<[minIndex := u]> ∅)
           | None => Panics
           end
    else Returns ∅ in
  match picked with
  | Returns urlsToQuery =>
      if (size urlsToQuery =? 0)%nat then Returns (addAll 0 (urls c) ∅)
      else Returns urlsToQuery
  | Panics => Panics
  | Blocks => Blocks
  end.

(** *** The cache key *)

(** [ss] of [checkCache] and [updateCache], from the variadic [s ...ECS]. *)
Definition subnetPart (s : list string) : string :=
  match s with
  | s0 :: _ => if String.eqb s0 "" then "" else TrimSpace s0
  | [] => ""
  end.

(** [cacheKey], computed by the same five lines in [checkCache] and in
    [updateCache]. *)
Definition cacheKey (d t : string) (s : list string) : string :=
  let ss := subnetPart s in
  Sha1.EncodeToString (Sha1.Sum (Sha1.bytes_of_string (d +:+ t +:+ ss))).

(** [checkCache], on the cache of a client that has one. *)
Definition checkCache (ch : Cache.cache Response) (d t : string) (s : list string)
    (now : Z) : option Response :=
  Cache.Get ch (cacheKey d t s) now.

(** [updateCache] *)
Definition updateCache (ch : Cache.cache Response) (d t : string) (resp : Response)
    (s : list string) (now : Z) : Cache.cache Response :=
  let ttl := match Answers resp with
             | a :: _ => TTL a
             | [] => 30
             end in
  Cache.Set_ ch (cacheKey d t s) resp ttl now.

(** *** One attempt *)

(** What [c.query] hands back: [(rsp, err)], [None] for [nil]. *)
Definition queryResult : Type := (option Response * option error)%type.

(** What [c.httpClient.Do] and [io.ReadAll] produce for a request. *)
Inductive httpResult : Type :=
  | DoFailed (err : error)
  | DoReturned (StatusCode : Z) (body : string + error).

Section Request.
(** [json.Unmarshal(data, rr)]: the decoded response, or an error. *)
Variable Unmarshal : string -> Response -> Response + error.

(** [doRequest], for a request whose URL prints as [u]. *)
Definition doRequest (u : string) (h : httpResult) : queryResult :=
  match h with
  | DoFailed err => (None, Some (wrapError ("doh: http request failed for " +:+ u) err))
  | DoReturned StatusCode body =>
      if negb (StatusCode =? 200) then
        (None, Some ("doh: provider " +:+ u +:+ " returned unexpected status code: "
                       +:+ GoInt.itoa StatusCode))
      else
        match body with
        | inr err =>
            (None, Some (wrapError ("doh: failed to read response body from " +:+ u) err))
        | inl data =>
            match Unmarshal data (emptyResponse u) with
            | inr err =>
                (None, Some (wrapError ("doh: failed to unmarshal json response from " +:+ u) err))
            | inl rr =>
                if negb (Status rr =? 0) then
                  (Some rr, Some ("doh: provider " +:+ u +:+ " returned error in dns response (status: "
                                    +:+ GoInt.itoa (Status rr) +:+ ")"))
                else (Some rr, None)
            end
        end
  end.

(** [query]: [buildRequest] either fails or gives a request, whose URL
    prints as [u]. *)
Definition query (built : string + error) (h : httpResult) : queryResult :=
  match built with
  | inr err => (None, Some err)
  | inl u => doRequest u h
  end.

End Request.

(** The statistics update of [goQuery], between [c.Lock()] and
    [c.Unlock()]. *)
Definition recordAttempt (st : gmap Z stat) (k : Z) (failed : bool) : gmap Z stat :=
  let s0 := match st !! k with
            | Some s0 => s0
            | None => {| failures := 0; attempts := 0; rate := 100%float |}
            end in
  let a := GoInt.add (attempts s0) 1 in
  let f := if failed then GoInt.add (failures s0) 1 else failures s0 in
  <[k := {| failures := f; attempts := a;
            rate := (GoInt.float64_of_int f / GoInt.float64_of_int a * 100)%float |}]> st.

(** The values that travel on the [chan interface{}]. *)
Inductive chanValue : Type :=
  | VResponse (rsp : option Response)
  | VError (err : error)
  | VOther.

(** What [goQuery] sends on [r]. *)
Definition sent (res : queryResult) : chanValue :=
  match res.2 with
  | None => VResponse res.1
  | Some err => VError err
  end.

Definition failed (res : queryResult) : bool :=
  match res.2 with
  | None => false
  | Some _ => true
  end.

(** [goQuery] for provider [k], given what [c.query] returned. *)
Definition goQuery (st : gmap Z stat) (k : Z) (res : queryResult) : gmap Z stat * chanValue :=
  (recordAttempt st k (failed res), sent res).

(** *** The race *)

(** The end of [collectResponses], after the loop. *)
Definition afterLoop (firstError : option error) (totalUrls : Z) : queryResult :=
  match firstError with
  | Some err => (None, Some err)
  | None => (None, Some ("doh: all " +:+ GoInt.itoa totalUrls +:+ " providers failed to respond"))
  end.

(** The loop [for v := range r]: [r] lists the values that are ever sent,
    in the order they arrive.  The channel is never closed, so receiving
    when nothing more is sent does not return. *)
Fixpoint collectLoop (r : list chanValue) (totalUrls total : Z) (firstError : option error)
  : outcome queryResult :=
  match r with
  | [] => Blocks
  | v :: r' =>
      let total := GoInt.add total 1 in
      match v with
      | VResponse resp => Returns (resp, None)
      | _ =>
          let firstError :=
            match v, firstError with
            | VError err, None => Some err
            | _, _ => firstError
            end in
          if total >=? totalUrls then Returns (afterLoop firstError totalUrls)
          else collectLoop r' totalUrls total firstError
      end
  end.

(** [collectResponses] *)
Definition collectResponses (r : list chanValue) (totalUrls : Z) : outcome queryResult :=
  collectLoop r totalUrls 0 None.

(** The attempts of a race: [run k u] is what [c.query] returns for
    provider [k], and [order] lists the providers as their attempts
    complete; each attempt records its outcome and then sends. *)
Fixpoint launch (st : gmap Z stat) (run : Z -> string -> queryResult)
    (order : list (Z * string)) : gmap Z stat * list chanValue :=
  match order with
  | [] => (st, [])
  | (k, u) :: rest =>
      let '(st1, v) := goQuery st k (run k u) in
      let '(st2, vs) := launch st1 run rest in
      (st2, v :: vs)
  end.

(** [fastQuery].  [now] is the clock when the cache is read, [now'] when it
    is written.  The statistics of the client returned are those once every
    attempt has recorded. *)
Definition fastQuery (c : DoH) (us : gmap Z string) (d t : string) (s : list string)
    (run : Z -> string -> queryResult) (order : list (Z * string)) (now now' : Z)
  : outcome (queryResult * DoH) :=
  match match cache c with
        | Some ch => checkCache ch d t s now
        | None => None
        end with
  | Some resp => Returns ((Some resp, None), c)
  | None =>
      let '(st, r) := launch (stats c) run order in
      match collectResponses r (Z.of_nat (size us)) with
      | Returns (resp, err) =>
          match err, cache c with
          | None, Some ch =>
              match resp with
              | Some rr =>
                  Returns ((resp, err),
                           {| urls := urls c;
                              cache := Some (updateCache ch d t rr s now');
                              stats := st |})
              | None => Panics
              end
          | _, _ => Returns ((resp, err), {| urls := urls c; cache := cache c; stats := st |})
          end
      | Panics => Panics
      | Blocks => Blocks
      end
  end.

(** [Query] *)
Definition Query (c : DoH) (d t : string) (s : list string) (it : list (Z * stat))
    (run : Z -> string -> queryResult) (order : list (Z * string)) (now now' : Z)
  : outcome (queryResult * DoH) :=
  match selectProviders c it with
  | Returns urlsToQuery => fastQuery c urlsToQuery d t s run order now now'
  | Panics => Panics
  | Blocks => Blocks
  end.

(** *** Quantities the statements below speak of *)

(** The attempts on provider [k] in a run of attempts, and those of them
    that failed. *)
Definition attemptsOf (k : Z) (trace : list (Z * bool)) : Z :=
  Z.of_nat (length (List.filter (fun a => a.1 =? k) trace)).

Definition failuresOf (k : Z) (trace : list (Z * bool)) : Z :=
  Z.of_nat (length (List.filter (fun a => (a.1 =? k) && a.2) trace)).

(** A run of attempts, each recorded as [goQuery] does. *)
Definition recordAll (st : gmap Z stat) (trace : list (Z * bool)) : gmap Z stat :=
  fold_left (fun st a => recordAttempt st a.1 a.2) trace st.

(** The first attempt, in completion order, that came back without error. *)
Definition firstSuccess (results : list queryResult) : option queryResult :=
  List.find (fun res => negb (failed res)) results.

(** The error of the first attempt in completion order. *)
Definition firstError (results : list queryResult) : option error :=
  match results with
  | res :: _ => res.2
  | [] => None
  end.

End Doh.

(** ** Building the request: [Punycode], [buildRequest], [query] *)

Module Request.

(** The bytes [url.QueryEscape] keeps: letters, digits, and [-], [_], [.],
    [~]. *)
Definition unreserved (c : ascii) : bool :=
  let n := Ascii.nat_of_ascii c in
  ((48 <=? n) && (n <=? 57) || (65 <=? n) && (n <=? 90) || (97 <=? n) && (n <=? 122)
   || (n =? 45) || (n =? 95) || (n =? 46) || (n =? 126))%nat.

Definition upperhex (d : nat) : ascii :=
  Ascii.ascii_of_nat (if (d <? 10)%nat then 48 + d else 55 + d).

(** [url.QueryEscape]: a space becomes [+], every other byte that is not
    kept becomes [%XX]. *)
Fixpoint QueryEscape (s : string) : string :=
  match s with
  | EmptyString => EmptyString
  | String c s' =>
      if unreserved c then String c (QueryEscape s')
      else if Ascii.eqb c " "%char then String "+"%char (QueryEscape s')
      else
        let n := Ascii.nat_of_ascii c in
        String "%"%char (String (upperhex (n / 16)) (String (upperhex (n mod 16)) (QueryEscape s')))
  end.

(** [url.Values], as the pairs [Add] was called with, in that order. *)
Definition Values : Type := list (string * string).

(** [param.Add(key, value)] *)
Definition Add (v : Values) (key value : string) : Values := v ++ [(key, value)].

(** [kv] put before the first pair whose key is not below its key. *)
Fixpoint insertByKey (kv : string * string) (l : Values) : Values :=
  match l with
  | [] => [kv]
  | kv' :: l' =>
      if String.leb kv.1 kv'.1 then kv :: l else kv' :: insertByKey kv l'
  end.

(** The pairs by ascending key, the values of one key in the order they
    were added. *)
Definition sortByKey (v : Values) : Values := fold_right insertByKey [] v.

(** [strings.Join(parts, "&")] *)
Fixpoint joinAmp (parts : list string) : string :=
  match parts with
  | [] => EmptyString
  | [x] => x
  | x :: rest => x +:+ "&" +:+ joinAmp rest
  end.

(** [param.Encode()] *)
Definition Encode (v : Values) : string :=
  joinAmp (map (fun kv => QueryEscape kv.1 +:+ "=" +:+ QueryEscape kv.2) (sortByKey v)).

(** A request, by what the client looks at: the URL as it prints, and the
    headers set. *)
Record Request : Type := MkRequest {
  URL : string;
  Header : list (string * string)
}.

Section Build.
(** [idna.New(...).ToASCII] with the options of [Punycode]. *)
Variable ToASCII : string -> string + error.
(** Package [net/netip], as [FixSubnet] uses it. *)
Context {Addr Prefix : Type}.
Variable ParsePrefix : string -> Prefix + error.
Variable ParseAddr : string -> Addr + error.
Variable Is4 : Addr -> bool.
Variable PrefixFrom : Addr -> Z -> Prefix.
Variable PrefixString : Prefix -> string.
(** [http.NewRequestWithContext(ctx, http.MethodGet, dnsURL, nil)]: the URL
    of the request as [req.URL.String()] prints it, or the error. *)
Variable NewRequest : string -> string + error.
(** The package constants [Name], [Version] and [Source]. *)
Variable Name Version Source : string.
(** [json.Unmarshal] *)
Variable Unmarshal : string -> Response -> Response + error.

(** [Domain.Punycode] of [dns.go] *)
Definition Punycode (d : string) : string + error := ToASCII (TrimSpace d).

(** [buildRequest] *)
Definition buildRequest (u d t : string) (s : list string) : Request + error :=
  match Punycode d with
  | inr err => inr (wrapError "doh: failed to convert domain to punycode" err)
  | inl name =>
      let param := Add (Add [] "name" name) "type" (TrimSpace t) in
      let param : Values + error :=
        match s with
        | s0 :: _ =>
            let ss := TrimSpace s0 in
            if String.eqb ss "" then inl param
            else match Utils.FixSubnet ParsePrefix ParseAddr Is4 PrefixFrom PrefixString ss with
                 | inr err => inr (wrapError "doh: invalid client subnet" err)
                 | inl ss => inl (Add param "edns_client_subnet" ss)
                 end
        | [] => inl param
        end in
      match param with
      | inr err => inr err
      | inl param =>
          let dnsURL := u +:+ "?" +:+ Encode param in
          match NewRequest dnsURL with
          | inr err =>
              inr (wrapError ("doh: failed to create http request for " +:+ dnsURL) err)
          | inl url =>
              inl {| URL := url;
                     Header := [("Accept", "application/dns-json");
                                ("User-Agent",
                                 Name +:+ "/" +:+ Version +:+ " (" +:+ Source +:+ ")")] |}
          end
      end
  end.

(** [query]: the request is built, then sent; [http] answers the request
    by its URL. *)
Definition queryRequest (u d t : string) (s : list string) (http : string -> Doh.httpResult)
  : Doh.queryResult :=
  match buildRequest u d t s with
  | inr err => (None, Some err)
  | inl req => Doh.doRequest Unmarshal (URL req) (http (URL req))
  end.

End Build.

End Request.

(** ** Well-formed clients *)

(** Every provider with a record is a configured one. *)
Definition keysValid (c : Doh.DoH) : Prop :=
  forall k s, Doh.stats c !! k = Some s -> 0 <= k < Z.of_nat (length (Doh.urls c)).

(** A client as [New] makes it and [Query] keeps it: it has providers,
    fewer than [2^63], and records only for them. *)
Definition wellFormed (c : Doh.DoH) : Prop :=
  Doh.urls c ≠ [] /\ Z.of_nat (length (Doh.urls c)) < 2 ^ 63 /\ keysValid c.

(** The cache holds only responses whose status is zero. *)
Definition cacheClean (c : Doh.DoH) : Prop :=
  forall ch key item,
    Doh.cache c = Some ch -> Cache.items ch !! key = Some item ->
    Status (Cache.value item) = 0.

(** What a race records: for each attempt, in completion order, the
    provider and whether it failed. *)
Definition raceTrace (run : Z -> string -> Doh.queryResult) (order : list (Z * string))
  : list (Z * bool) :=
  map (fun ku => (ku.1, Doh.failed (run ku.1 ku.2))) order.

(** * Properties *)

Import Doh.

(** ** The digest

    [Sha1.hexsum] on the test vectors of FIPS 180. *)

Example sha1_empty : Sha1.hexsum "" = "da39a3ee5e6b4b0d3255bfef95601890afd80709".
Proof. vm_compute. reflexivity. Qed.

Example sha1_abc : Sha1.hexsum "abc" = "a9993e364706816aba3e25717850c26c9cd0d89d".
Proof. vm_compute. reflexivity. Qed.

Example sha1_two_blocks :
  Sha1.hexsum "abcdbcdecdefdefgefghfghighijhijkijkljklmklmnlmnomnopnopq"
    = "84983e441c3bd26ebaae4aa1f95129e5e54670f1".
Proof. vm_compute. reflexivity. Qed.

(** ** Integers and floats *)

Lemma wrap64_small (z : Z) : - 2 ^ 63 <= z < 2 ^ 63 -> GoInt.wrap64 z = z.
Proof.
  intros H. unfold GoInt.wrap64.
  rewrite Z.mod_small; lia.
Qed.

Lemma fin_cmp_Lt (e1 e2 : Z) (m1 m2 : positive) :
  match Z.compare e1 e2 with
  | Lt => Lt
  | Gt => Gt
  | Eq => Pos.compare_cont Eq m1 m2
  end = Lt <-> e1 < e2 \/ (e1 = e2 /\ (m1 < m2)%positive).
Proof.
  change (Pos.compare_cont Eq m1 m2) with (Pos.compare m1 m2).
  destruct (Z.compare_spec e1 e2) as [He|He|He].
  - rewrite Pos.compare_lt_iff. lia.
  - split; [lia | done].
  - split; [done | lia].
Qed.

Lemma fin_cmp_Gt (e1 e2 : Z) (m1 m2 : positive) :
  match Z.compare e1 e2 with
  | Lt => Lt
  | Gt => Gt
  | Eq => Pos.compare_cont Eq m1 m2
  end = Gt <-> e2 < e1 \/ (e1 = e2 /\ (m2 < m1)%positive).
Proof.
  change (Pos.compare_cont Eq m1 m2) with (Pos.compare m1 m2).
  destruct (Z.compare_spec e1 e2) as [He|He|He].
  - rewrite Pos.compare_gt_iff. lia.
  - split; [done | lia].
  - split; [lia | done].
Qed.

Lemma SFltb_finite s1 m1 e1 s2 m2 e2 :
  SFltb (S754_finite s1 m1 e1) (S754_finite s2 m2 e2) = true <-> finite_lt s1 m1 e1 s2 m2 e2.
Proof.
  unfold SFltb, SFcompare, finite_lt. destruct s1, s2; try (split; [done | congruence || done]).
  - rewrite <- fin_cmp_Gt.
    destruct (e1 ?= e2); simpl; try (split; congruence).
    destruct (Pos.compare_cont Eq m1 m2); simpl; split; congruence.
  - rewrite <- fin_cmp_Lt.
    destruct (e1 ?= e2); try (split; congruence).
    destruct (Pos.compare_cont Eq m1 m2); split; congruence.
Qed.

Lemma SFltb_trans a b c : SFltb a b = true -> SFltb b c = true -> SFltb a c = true.
Proof.
  destruct a as [[]|[]| |s1 m1 e1], b as [[]|[]| |s2 m2 e2], c as [[]|[]| |s3 m3 e3];
    try (cbn; congruence);
    try (destruct s1; cbn; congruence);
    try (destruct s2; cbn; congruence);
    try (destruct s3; cbn; congruence);
    try (destruct s1, s2; cbn; congruence);
    try (destruct s1, s3; cbn; congruence);
    try (destruct s2, s3; cbn; congruence).
  rewrite !SFltb_finite. unfold finite_lt. destruct s1, s2, s3; try tauto; lia.
Qed.

Lemma SFltb_irrefl a : SFltb a a = false.
Proof.
  destruct a as [[]|[]| |s m e]; try reflexivity.
  destruct (SFltb (S754_finite s m e) (S754_finite s m e)) eqn:E; [|done].
  apply SFltb_finite in E. unfold finite_lt in E. destruct s; lia.
Qed.

(** [<] on [float64] is transitive and irreflexive (a NaN is below
    nothing and nothing is below it). *)
Lemma float_ltb_trans (x y z : float) :
  PrimFloat.ltb x y = true -> PrimFloat.ltb y z = true -> PrimFloat.ltb x z = true.
Proof. rewrite !FloatAxioms.ltb_spec. apply SFltb_trans. Qed.

Lemma float_ltb_irrefl (x : float) : PrimFloat.ltb x x = false.
Proof. rewrite FloatAxioms.ltb_spec. apply SFltb_irrefl. Qed.

Lemma float_ltb_asym (x y : float) : PrimFloat.ltb x y = true -> PrimFloat.ltb y x = false.
Proof.
  intros H. destruct (PrimFloat.ltb y x) eqn:E; [|done].
  by rewrite <- (float_ltb_irrefl x), (float_ltb_trans x y x).
Qed.

(** ** The client's providers *)

(** A client made by [New] always has providers: the default list stands in
    for an empty one. *)
Lemma New_has_providers (providers : list string) : urls (New providers) ≠ [].
Proof. unfold New. cbn. by destruct providers. Qed.

(** ** The reliability record *)

Lemma recordAttempt_lookup (st : gmap Z stat) (k : Z) (b : bool) :
  recordAttempt st k b !! k =
    Some (let s0 := default (MkStat 0 0 100%float) (st !! k) in
          let a := GoInt.add (attempts s0) 1 in
          let f := if b then GoInt.add (failures s0) 1 else failures s0 in
          MkStat f a (GoInt.float64_of_int f / GoInt.float64_of_int a * 100)%float).
Proof.
  unfold recordAttempt. rewrite lookup_insert_eq. by destruct (st !! k).
Qed.

Lemma recordAttempt_lookup_ne (st : gmap Z stat) (k j : Z) (b : bool) :
  k ≠ j -> recordAttempt st k b !! j = st !! j.
Proof. intros H. unfold recordAttempt. by rewrite lookup_insert_ne. Qed.

Lemma attemptsOf_cons (k : Z) (a : Z * bool) (trace : list (Z * bool)) :
  attemptsOf k (a :: trace) = (if a.1 =? k then 1 else 0) + attemptsOf k trace.
Proof. unfold attemptsOf. simpl. destruct (a.1 =? k); simpl; lia. Qed.

Lemma failuresOf_cons (k : Z) (a : Z * bool) (trace : list (Z * bool)) :
  failuresOf k (a :: trace) = (if (a.1 =? k) && a.2 then 1 else 0) + failuresOf k trace.
Proof. unfold failuresOf. simpl. destruct ((a.1 =? k) && a.2); simpl; lia. Qed.

Lemma failuresOf_bounds (k : Z) (trace : list (Z * bool)) :
  0 <= failuresOf k trace <= attemptsOf k trace.
Proof.
  induction trace as [|a trace IH].
  - unfold failuresOf, attemptsOf. simpl. lia.
  - rewrite attemptsOf_cons, failuresOf_cons.
    destruct (a.1 =? k), a.2; simpl; lia.
Qed.

(** The counts of provider [k] after a run of attempts, from a state in
    which they are [f0] and [a0]. *)
Lemma recordAll_counts (k : Z) (trace : list (Z * bool)) :
  forall (st : gmap Z stat) (f0 a0 : Z),
    0 <= f0 <= a0 ->
    a0 + attemptsOf k trace < 2 ^ 63 ->
    (st !! k = None /\ f0 = 0 /\ a0 = 0) \/ (exists r, st !! k = Some (MkStat f0 a0 r)) ->
    recordAll st trace !! k =
      if attemptsOf k trace =? 0 then st !! k
      else Some (MkStat (f0 + failuresOf k trace) (a0 + attemptsOf k trace)
                   (GoInt.float64_of_int (f0 + failuresOf k trace)
                    / GoInt.float64_of_int (a0 + attemptsOf k trace) * 100)%float).
Proof.
  induction trace as [|[k' b] trace IH]; intros st f0 a0 Hf Ha Hst.
  - reflexivity.
  - pose proof (failuresOf_bounds k trace) as Hb.
    assert (Hn : 0 <= attemptsOf k trace) by (unfold attemptsOf; lia).
    rewrite attemptsOf_cons, failuresOf_cons in *. cbn [fst snd] in *.
    change (recordAll st ((k', b) :: trace)) with (recordAll (recordAttempt st k' b) trace).
    destruct (Z.eqb_spec k' k) as [->|Hne].
    + assert (Hrec : recordAttempt st k b !! k =
                Some (MkStat (f0 + if b then 1 else 0) (a0 + 1)
                        (GoInt.float64_of_int (f0 + if b then 1 else 0)
                         / GoInt.float64_of_int (a0 + 1) * 100)%float)).
      { rewrite recordAttempt_lookup.
        assert (default (MkStat 0 0 100%float) (st !! k) = MkStat f0 a0 (rate (default (MkStat 0 0 100%float) (st !! k)))) as ->.
        { destruct Hst as [(-> & -> & ->)|[r ->]]; reflexivity. }
        cbn [failures attempts]. unfold GoInt.add.
        rewrite (wrap64_small (a0 + 1)) by lia.
        destruct b; [rewrite wrap64_small by lia|rewrite Z.add_0_r]; reflexivity. }
      rewrite (IH _ (f0 + if b then 1 else 0) (a0 + 1)); [|destruct b; lia|lia|right; eauto].
      replace (1 + attemptsOf k trace =? 0) with false by lia.
      destruct (Z.eqb_spec (attemptsOf k trace) 0) as [E|E].
      * rewrite Hrec, E. assert (failuresOf k trace = 0) as -> by lia.
        rewrite !Z.add_0_r. destruct b; reflexivity.
      * cbn [andb]. rewrite !Z.add_assoc. reflexivity.
    + rewrite (IH _ f0 a0); [|lia|lia|by rewrite recordAttempt_lookup_ne].
      simpl. rewrite recordAttempt_lookup_ne by done. reflexivity.
Qed.

(** C3: after each [recordAttempt] the record's failure rate is the failure
    count divided by the attempt count, times 100, in [float64] arithmetic;
    and after [N >= 1] attempts on a provider that had no record, of which
    [failures] failed, in any order and however interleaved with attempts on
    other providers, its record holds [failures], [N] and the rate
    [(failures / N) * 100] exactly. *)
Theorem failure_rate_recomputed :
  (forall (st : gmap Z stat) (k : Z) (b : bool),
      exists s, recordAttempt st k b !! k = Some s /\
                rate s = (GoInt.float64_of_int (failures s)
                          / GoInt.float64_of_int (attempts s) * 100)%float) /\
  (forall (st : gmap Z stat) (k : Z) (trace : list (Z * bool)),
      st !! k = None ->
      1 <= attemptsOf k trace < 2 ^ 63 ->
      recordAll st trace !! k =
        Some (MkStat (failuresOf k trace) (attemptsOf k trace)
                (GoInt.float64_of_int (failuresOf k trace)
                 / GoInt.float64_of_int (attemptsOf k trace) * 100)%float)).
Proof.
  split.
  - intros st k b. rewrite recordAttempt_lookup. eexists. split; [reflexivity|]. reflexivity.
  - intros st k trace Hnone HN.
    rewrite (recordAll_counts k trace st 0 0); [|lia|lia|by left].
    replace (attemptsOf k trace =? 0) with false by lia.
    reflexivity.
Qed.

Lemma failure_rate_recomputed_witness :
  let trace := [(1, true); (0, false); (1, false); (1, false)] in
  (∅ : gmap Z stat) !! 1 = None /\
  1 <= attemptsOf 1 trace < 2 ^ 63 /\
  recordAll ∅ trace !! 1 = Some (MkStat 1 3 (1 / 3 * 100)%float).
Proof.
  intros trace.
  assert (H : 1 <= attemptsOf 1 trace < 2 ^ 63) by (vm_compute; split; congruence).
  split; [reflexivity|]. split; [exact H|].
  exact (proj2 failure_rate_recomputed ∅ 1 trace eq_refl H).
Defined.

(** ** Provider selection *)

(** The scan keeps the rate it started from, or ends on an entry whose
    rate is below it; either way no entry is below the rate it ends on. *)
Lemma scan_result (it : list (Z * stat)) :
  forall acc : Z * float,
    let res := fold_left scanStep it acc in
    (res = acc \/
     (exists s, (res.1, s) ∈ it /\ rate s = res.2 /\ PrimFloat.ltb res.2 acc.2 = true)) /\
    (forall j sj, (j, sj) ∈ it -> PrimFloat.ltb (rate sj) res.2 = false).
Proof.
  induction it as [|[k s] it IH]; intros acc; cbn zeta.
  - split; [by left|]. intros j sj H. by apply elem_of_nil in H.
  - cbn [fold_left]. destruct (IH (scanStep acc (k, s))) as [Hres Hmin].
    set (res := fold_left scanStep it (scanStep acc (k, s))) in *.
    destruct acc as [i0 r0]. unfold scanStep in Hres. cbn [fst snd] in Hres.
    destruct (PrimFloat.ltb (rate s) r0) eqn:Hlt.
    + split.
      * right. destruct Hres as [->|(s' & Hin & Hr & Hlt')].
        -- exists s. cbn. split; [apply list_elem_of_here|done].
        -- exists s'. split; [by apply list_elem_of_further|]. split; [done|].
           cbn [snd] in *. by apply (float_ltb_trans _ (rate s)).
      * intros j sj [[= -> ->]|Hin]%elem_of_cons; [|by eapply Hmin].
        destruct Hres as [->|(s' & Hin & Hr & Hlt')]; cbn [snd] in *.
        -- apply float_ltb_irrefl.
        -- by apply float_ltb_asym.
    + split.
      * destruct Hres as [->|(s' & Hin & Hr & Hlt')]; [by left|].
        right. exists s'. split; [by apply list_elem_of_further|done].
      * intros j sj [[= -> ->]|Hin]%elem_of_cons; [|by eapply Hmin].
        destruct Hres as [->|(s' & Hin & Hr & Hlt')]; cbn [snd] in *; [done|].
        destruct (PrimFloat.ltb (rate s) res.2) eqn:E; [|done].
        by rewrite (float_ltb_trans _ _ _ E Hlt') in Hlt.
Qed.

(** The map built by the loop over [c.urls]: index [i] to the [i]-th URL. *)
Lemma addAll_lookup (us : list string) :
  forall (i0 : Z) (m : gmap Z string) (j : Z),
    addAll i0 us m !! j =
      if (i0 <=? j) && (j <? i0 + Z.of_nat (length us)) then us !! Z.to_nat (j - i0)
      else m !! j.
Proof.
  induction us as [|u us IH]; intros i0 m j; cbn [addAll length].
  - destruct (Z.leb_spec i0 j), (Z.ltb_spec j (i0 + Z.of_nat 0)); cbn [andb]; try done; lia.
  - rewrite IH.
    destruct (Z.leb_spec (i0 + 1) j), (Z.ltb_spec j (i0 + 1 + Z.of_nat (length us)));
      destruct (Z.leb_spec i0 j), (Z.ltb_spec j (i0 + Z.of_nat (S (length us))));
      cbn [andb]; try lia.
    + replace (Z.to_nat (j - i0)) with (S (Z.to_nat (j - (i0 + 1)))) by lia. done.
    + by rewrite lookup_insert_ne by lia.
    + assert (j = i0) as -> by lia. rewrite lookup_insert_eq, Z.sub_diag. done.
    + by rewrite lookup_insert_ne by lia.
Qed.

Lemma addAll_all (us : list string) (j : Z) : addAll 0 us ∅ !! j = urlAt us j.
Proof.
  rewrite addAll_lookup. unfold urlAt. rewrite Z.sub_0_r, lookup_empty.
  destruct (Z.ltb_spec j 0), (Z.leb_spec 0 j), (Z.ltb_spec j (0 + Z.of_nat (length us)));
    cbn [andb]; try lia; try done.
  symmetry. apply lookup_ge_None. lia.
Qed.

(** C2: with at least one record, selection returns exactly one provider:
    a recorded one that no recorded provider has a lower failure rate than,
    and the one with the strictly lowest rate when there is one, whatever
    the order [range] yields the records in; with no record (cold start, or
    after a reset) it returns every configured provider.  The records are
    those [goQuery] writes: their keys index [urls] and their rates are
    below the scan's initial 101. *)
Theorem select_single_best_or_all (c : DoH) (it : list (Z * stat)) :
  it ≡ₚ map_to_list (stats c) ->
  (forall k s, stats c !! k = Some s ->
      0 <= k < Z.of_nat (length (urls c)) /\ PrimFloat.ltb (rate s) 101 = true) ->
  (stats c ≠ ∅ ->
     exists k s u,
       stats c !! k = Some s /\ urlAt (urls c) k = Some u /\
       selectProviders c it = Returns {[k := u]} /\
       (forall j sj, stats c !! j = Some sj -> PrimFloat.ltb (rate sj) (rate s) = false) /\
       (forall m sm, stats c !! m = Some sm ->
          (forall j sj, stats c !! j = Some sj -> j ≠ m ->
             PrimFloat.ltb (rate sm) (rate sj) = true) ->
          k = m)) /\
  (stats c = ∅ ->
     selectProviders c it = Returns (addAll 0 (urls c) ∅) /\
     forall j, addAll 0 (urls c) ∅ !! j = urlAt (urls c) j).
Proof.
  intros Hit Hinv. split.
  - intros Hne.
    assert (Hin : forall j sj, (j, sj) ∈ it <-> stats c !! j = Some sj).
    { intros j sj. rewrite Hit. apply elem_of_map_to_list. }
    destruct (scan_result it (-1, 101%float)) as [Hres Hmin]. cbn zeta in *.
    fold (scanStats it) in Hres, Hmin.
    assert (Hsize : (0 <? size (stats c))%nat = true).
    { apply Nat.ltb_lt. destruct (decide (size (stats c) = 0%nat)) as [E|E]; [|lia].
      by apply map_size_empty_iff in E. }
    destruct Hres as [Hres|(s & Hk & Hr & Hlt)].
    { exfalso. destruct (map_choose _ Hne) as (j & sj & Hj).
      destruct (Hinv j sj Hj) as [_ Hj101].
      apply Hin in Hj. apply Hmin in Hj. rewrite Hres in Hj. cbn in Hj. congruence. }
    apply Hin in Hk. destruct (Hinv _ _ Hk) as [Hrange _].
    assert (Hu : exists u, urlAt (urls c) (scanStats it).1 = Some u).
    { unfold urlAt. replace ((scanStats it).1 <? 0) with false by lia.
      apply lookup_lt_is_Some. lia. }
    destruct Hu as [u Hu].
    exists (scanStats it).1, s, u. split; [done|]. split; [done|]. split; [|split].
    + unfold selectProviders. rewrite Hsize.
      destruct (scanStats it) as [k r]. cbn [fst] in *.
      replace (k =? -1) with false by lia. rewrite Hu.
      rewrite insert_empty, map_size_singleton. reflexivity.
    + intros j sj Hj. rewrite Hr. apply (Hmin j). by apply Hin.
    + intros m sm Hm Hbest.
      destruct (decide ((scanStats it).1 = m)) as [|Hkm]; [done|].
      exfalso. specialize (Hbest _ _ Hk Hkm).
      apply Hin in Hm. apply Hmin in Hm. rewrite <- Hr in Hm. congruence.
  - intros Hempty. split; [|intros j; apply addAll_all].
    unfold selectProviders. rewrite Hempty, map_size_empty. reflexivity.
Qed.

Lemma select_single_best_or_all_witness :
  let st : gmap Z stat := <[0 := MkStat 1 2 50%float]> (<[2 := MkStat 0 1 0%float]> ∅) in
  let c := MkDoH ["https://a/dns-query"; "https://b/dns-query"; "https://c/dns-query"] None st in
  let it := [(0, MkStat 1 2 50%float); (2, MkStat 0 1 0%float)] in
  it ≡ₚ map_to_list (stats c) /\
  selectProviders c it = Returns {[2 := "https://c/dns-query"]}.
Proof.
  intros st c it.
  assert (Hit : it ≡ₚ map_to_list (stats c)) by (vm_compute; apply perm_swap).
  assert (Hinv : forall k s, stats c !! k = Some s ->
             0 <= k < Z.of_nat (length (urls c)) /\ PrimFloat.ltb (rate s) 101 = true).
  { intros k s H. cbn [stats c st] in H.
    apply lookup_insert_Some in H as [[<- <-]|[_ H]]; [by vm_compute|].
    apply lookup_insert_Some in H as [[<- <-]|[_ H]]; [by vm_compute|].
    by rewrite lookup_empty in H. }
  split; [exact Hit|].
  destruct (proj1 (select_single_best_or_all c it Hit Hinv)) as (k & s & u & Hk & Hu & Hsel & _ & Hbest).
  { intros E. apply (f_equal (fun m => m !! 0)) in E. by vm_compute in E. }
  assert (k = 2) as ->.
  { apply (Hbest 2 (MkStat 0 1 0%float)); [reflexivity|].
    intros j sj Hj Hne. cbn [stats c st] in Hj.
    apply lookup_insert_Some in Hj as [[<- <-]|[_ Hj]]; [reflexivity|].
    apply lookup_insert_Some in Hj as [[<- <-]|[_ Hj]]; [done|].
    by rewrite lookup_empty in Hj. }
  vm_compute in Hu. injection Hu as <-. exact Hsel.
Defined.

(** ** The race *)

Lemma launch_values (run : Z -> string -> queryResult) (order : list (Z * string)) :
  forall st : gmap Z stat,
    (launch st run order).2 = map (fun ku => sent (run ku.1 ku.2)) order.
Proof.
  induction order as [|[k u] order IH]; intros st; [reflexivity|].
  cbn [launch goQuery]. specialize (IH (recordAttempt st k (failed (run k u)))).
  destruct (launch _ run order) as [st2 vs]. cbn [snd fst map] in *. by rewrite IH.
Qed.

Lemma sent_failed (res : queryResult) :
  failed res = true -> exists err, res.2 = Some err /\ sent res = VError err.
Proof.
  unfold failed, sent. destruct res.2 as [err|]; [|done]. intros _. by exists err.
Qed.

Lemma sent_succeeded (res : queryResult) : failed res = false -> sent res = VResponse res.1.
Proof. unfold failed, sent. by destruct res.2. Qed.

(** The loop of [collectResponses] when every one of the [n] values it
    waits for arrives: [total] received so far, [fe] the first error so
    far. *)
Lemma collectLoop_all_arrive (results : list queryResult) :
  forall (n total : Z) (fe : option error),
    results ≠ [] ->
    0 <= total ->
    total + Z.of_nat (length results) = n ->
    n < 2 ^ 63 ->
    collectLoop (map sent results) n total fe =
      Returns match firstSuccess results with
              | Some res => (res.1, None)
              | None => afterLoop (match fe with
                                   | Some _ => fe
                                   | None => firstError results
                                   end) n
              end.
Proof.
  induction results as [|res rest IH]; intros n total fe Hne Htot Hlen Hn; [done|].
  cbn [map collectLoop firstSuccess List.find firstError]. cbn [length] in Hlen.
  unfold GoInt.add. rewrite wrap64_small by lia.
  destruct (failed res) eqn:Hf; cbn [negb].
  - destruct (sent_failed res Hf) as (err & Herr & ->).
    fold (firstSuccess rest). rewrite Herr.
    destruct (Z.geb_spec (total + 1) n) as [Hge|Hlt].
    + assert (rest = []) as -> by (apply length_zero_iff_nil; lia).
      cbn. by destruct fe.
    + rewrite IH; [|intros ->; cbn in Hlen; lia|lia|lia|lia].
      by destruct fe.
  - by rewrite (sent_succeeded res Hf).
Qed.

(** C1: in a race over a non-empty set of providers, whatever the order in
    which the attempts complete, the coordinator returns the response of
    the first attempt, in completion order, that came back without error;
    when every attempt fails it returns the error of the attempt that
    completed first. *)
Theorem race_first_success_else_first_error
    (st : gmap Z stat) (run : Z -> string -> queryResult)
    (us : gmap Z string) (order : list (Z * string)) :
  us ≠ ∅ ->
  order ≡ₚ map_to_list us ->
  Z.of_nat (size us) < 2 ^ 63 ->
  let results := map (fun ku => run ku.1 ku.2) order in
  match firstSuccess results with
  | Some res =>
      collectResponses (launch st run order).2 (Z.of_nat (size us)) = Returns (res.1, None)
  | None =>
      exists err, firstError results = Some err /\
        collectResponses (launch st run order).2 (Z.of_nat (size us)) = Returns (None, Some err)
  end.
Proof.
  intros Hne Hperm Hsize results.
  assert (Hlen : length results = size us).
  { unfold results. rewrite length_map, Hperm. apply length_map_to_list. }
  assert (Hres : results ≠ []).
  { intros E. rewrite E in Hlen. cbn in Hlen. symmetry in Hlen.
    by apply map_size_empty_iff in Hlen. }
  unfold collectResponses. rewrite launch_values.
  replace (map (fun ku => sent (run ku.1 ku.2)) order) with (map sent results)
    by (unfold results; by rewrite map_map).
  rewrite (collectLoop_all_arrive results _ 0 None Hres); [|lia|lia|lia].
  destruct (firstSuccess results) as [res|] eqn:Hfs; [done|].
  destruct results as [|res rest]; [done|]. cbn [firstError].
  assert (Hf : failed res = true).
  { unfold firstSuccess in Hfs. cbn [List.find] in Hfs. by destruct (failed res). }
  destruct (sent_failed res Hf) as (err & Herr & _).
  exists err. by rewrite Herr.
Qed.

Lemma race_first_success_else_first_error_witness :
  let us : gmap Z string := <[0 := "https://a/dns-query"]> (<[1 := "https://b/dns-query"]> ∅) in
  let order := [(1, "https://b/dns-query"); (0, "https://a/dns-query")] in
  let run := fun (k : Z) (_ : string) =>
    if k =? 0 then (None, Some "doh: http request failed for a") : queryResult
    else (None, Some "doh: http request failed for b") in
  order ≡ₚ map_to_list us /\
  collectResponses (launch ∅ run order).2 (Z.of_nat (size us))
    = Returns (None, Some "doh: http request failed for b").
Proof.
  intros us order run.
  assert (Hperm : order ≡ₚ map_to_list us) by (vm_compute; reflexivity).
  assert (Hne : us ≠ ∅).
  { intros E. apply (f_equal (fun m => m !! 0)) in E. by vm_compute in E. }
  assert (Hsize : Z.of_nat (size us) < 2 ^ 63) by (by vm_compute).
  split; [exact Hperm|].
  pose proof (race_first_success_else_first_error ∅ run us order Hne Hperm Hsize) as H.
  cbn in H. destruct H as (err & [= <-] & H). exact H.
Defined.


(** Whatever arrives, the coordinator hands back either a response that
    was sent as a success, with no error, or an error with no response. *)
Lemma collectLoop_result (r : list chanValue) :
  forall (n total : Z) (fe : option error) (resp : option Response) (err : option error),
    collectLoop r n total fe = Returns (resp, err) ->
    (err = None /\ VResponse resp ∈ r) \/ (resp = None /\ exists e, err = Some e).
Proof.
  induction r as [|v r IH]; intros n total fe resp err H; [done|].
  cbn [collectLoop] in H.
  destruct v as [rsp|e|].
  - injection H as <- <-. left. split; [done|apply list_elem_of_here].
  - destruct (GoInt.add total 1 >=? n).
    + right. injection H as H. unfold afterLoop in H.
      destruct fe; injection H as <- <-; eauto.
    + apply IH in H as [[? ?]|?]; [left|by right].
      split; [done|by apply list_elem_of_further].
  - destruct (GoInt.add total 1 >=? n).
    + right. injection H as H. unfold afterLoop in H.
      destruct fe; injection H as <- <-; eauto.
    + apply IH in H as [[? ?]|?]; [left|by right].
      split; [done|by apply list_elem_of_further].
Qed.

(** C6, as the code has it: when the body decodes to a response with a
    nonzero status, [doRequest] returns the decoded response together with
    an error; [goQuery] counts the attempt as failed and sends the error
    alone; and the coordinator never returns a response next to an error,
    so the attempt cannot win and its response goes no further than
    [goQuery]. *)
Theorem upstream_error_fails_attempt
    (Unmarshal : string -> Response -> Response + error)
    (u data : string) (rr : Response) :
  Unmarshal data (emptyResponse u) = inl rr ->
  Status rr ≠ 0 ->
  let res := doRequest Unmarshal u (DoReturned 200 (inl data)) in
  exists e,
    res = (Some rr, Some e) /\
    (forall st k, goQuery st k res = (recordAttempt st k true, VError e)) /\
    (forall (results : list queryResult) (n : Z) resp err,
        collectResponses (map sent results) n = Returns (resp, err) ->
        (err = None /\ exists res', res' ∈ results /\ failed res' = false /\ res'.1 = resp) \/
        (resp = None /\ exists e', err = Some e')).
Proof.
  intros Hparse Hstatus res. unfold res, doRequest. cbn. rewrite Hparse.
  replace (Status rr =? 0) with false by lia. cbn [negb].
  eexists. split; [reflexivity|]. split; [done|].
  intros results n resp err H. apply collectLoop_result in H as [[-> Hin]|H]; [left|by right].
  split; [done|]. apply list_elem_of_fmap in Hin as (res' & Hsent & Hin).
  exists res'. split; [done|]. unfold sent, failed in *. by destruct res'.2; simplify_eq.
Qed.

Lemma upstream_error_fails_attempt_witness :
  let u := "https://a/dns-query" in
  let Unmarshal := fun (_ : string) (rr : Response) =>
    inl (MkResponse 3 false true true false false [] [] (Provider rr)) : Response + error in
  let rr := MkResponse 3 false true true false false [] [] u in
  let res := doRequest Unmarshal u (DoReturned 200 (inl "body")) in
  Status rr ≠ 0 /\
  exists e,
    res = (Some rr, Some e) /\
    forall st k, goQuery st k res = (recordAttempt st k true, VError e).
Proof.
  intros u Unmarshal rr res.
  assert (Hs : Status rr ≠ 0) by (by vm_compute).
  split; [exact Hs|].
  destruct (upstream_error_fails_attempt Unmarshal u "body" rr eq_refl Hs) as (e & H1 & H2 & _).
  exists e. split; [exact H1|exact H2].
Defined.

(** The response of an attempt that decoded a nonzero status does not reach
    the caller of [Query]: with one provider answering status 3, [doRequest]
    has the response and [Query] returns no response with the error. *)
Lemma upstream_error_response_dropped :
  let u := "https://a/dns-query" in
  let Unmarshal := fun (_ : string) (rr : Response) =>
    inl (MkResponse 3 false true true false false [] [] (Provider rr)) : Response + error in
  let res := doRequest Unmarshal u (DoReturned 200 (inl "body")) in
  res.1 = Some (MkResponse 3 false true true false false [] [] u) /\
  exists e c',
    res.2 = Some e /\
    Query (New [u]) "example.com" "A" [] [] (fun _ _ => res) [(0, u)] 0 0
      = Returns ((None, Some e), c').
Proof.
  intros u Unmarshal res. split; [reflexivity|].
  eexists _, _. split; reflexivity.
Qed.

(** ** The cache *)



(** *** White space *)

Lemma leading_space_rune (p s : string) :
  In p spaceRunes -> (1 <= String.length p)%nat /\ leading_space (p +:+ s) = Some s.
Proof.
  intros Hin. vm_compute in Hin.
  repeat (destruct Hin as [<-|Hin]; [split; [cbn; lia|reflexivity]|]).
  destruct Hin.
Qed.

Lemma string_length_app (p s : string) :
  String.length (p +:+ s) = (String.length p + String.length s)%nat.
Proof.
  induction p as [|a p IH]; [done|].
  change (String a p +:+ s) with (String a (p +:+ s)). cbn [String.length]. by rewrite IH.
Qed.

Lemma trim_left_fuel_whitespace (s : string) :
  whitespace_only s -> forall n, (String.length s <= n)%nat -> trim_left_fuel n s = "".
Proof.
  induction 1 as [|p s Hin Hs IH]; intros n Hn.
  - by destruct n.
  - destruct (leading_space_rune p s Hin) as [Hp Hlead].
    rewrite string_length_app in Hn.
    destruct n as [|n]; [lia|]. cbn [trim_left_fuel]. rewrite Hlead. apply IH. lia.
Qed.

(** [TrimSpace] of a string of white space is the empty string. *)
Lemma TrimSpace_whitespace (s : string) : whitespace_only s -> TrimSpace s = "".
Proof.
  intros Hs. unfold TrimSpace, TrimLeft.
  by rewrite (trim_left_fuel_whitespace s Hs).
Qed.

Lemma subnetPart_whitespace (ws : string) : whitespace_only ws -> subnetPart [ws] = "".
Proof.
  intros Hws. unfold subnetPart. destruct (String.eqb ws ""); [done|].
  by apply TrimSpace_whitespace.
Qed.

(** *** The cache key *)

(** C10: a query without client subnet, with the empty string as subnet,
    or with a subnet of white space only, has the same cache key, so
    [checkCache] reads and [updateCache] writes the same entry for the
    three. *)
Theorem blank_subnets_share_cache_key
    (d t ws : string) (ch : Cache.cache Response) (resp : Response) (now : Z) :
  whitespace_only ws ->
  cacheKey d t [] = cacheKey d t [""] /\
  cacheKey d t [] = cacheKey d t [ws] /\
  checkCache ch d t [] now = checkCache ch d t [""] now /\
  checkCache ch d t [] now = checkCache ch d t [ws] now /\
  updateCache ch d t resp [] now = updateCache ch d t resp [""] now /\
  updateCache ch d t resp [] now = updateCache ch d t resp [ws] now.
Proof.
  intros Hws.
  assert (H1 : cacheKey d t [] = cacheKey d t [""]) by reflexivity.
  assert (H2 : cacheKey d t [] = cacheKey d t [ws]).
  { unfold cacheKey. by rewrite (subnetPart_whitespace ws Hws). }
  unfold checkCache, updateCache. rewrite <- H1, <- H2. done.
Qed.

Lemma blank_subnets_share_cache_key_witness :
  let ws := " " +:+ bytes [9]%nat +:+ " " in
  whitespace_only ws /\
  cacheKey "example.com" "A" [] = cacheKey "example.com" "A" [ws] /\
  checkCache Cache.newCache "example.com" "A" [] 0
    = checkCache Cache.newCache "example.com" "A" [ws] 0.
Proof.
  intros ws.
  assert (Hws : whitespace_only ws).
  { apply (ws_rune " "); [vm_compute; tauto|].
    apply (ws_rune (bytes [9]%nat)); [vm_compute; tauto|].
    apply (ws_rune " " ""); [vm_compute; tauto|]. apply ws_nil. }
  split; [exact Hws|].
  destruct (blank_subnets_share_cache_key "example.com" "A" ws Cache.newCache
              (emptyResponse "") 0 Hws) as (_ & H2 & _ & H4 & _).
  split; [exact H2|exact H4].
Defined.




(** *** Expiry *)

Lemma Set_lookup {V : Type} (c : Cache.cache V) (key : string) (v : V) (ttl now : Z) :
  Cache.items (Cache.Set_ c key v ttl now) !! key
    = Some (Cache.CacheItem v (GoInt.add now (GoInt.mul ttl Cache.Second))).
Proof. unfold Cache.Set_. cbn. apply lookup_insert_eq. Qed.




(** ** [FixSubnet] *)

Section FixSubnetProps.
Context {Addr Prefix : Type}.
Variable ParsePrefix : string -> Prefix + error.
Variable ParseAddr : string -> Addr + error.
Variable Is4 : Addr -> bool.
Variable PrefixFrom : Addr -> Z -> Prefix.
Variable PrefixString : Prefix -> string.

(** C9: when the trimmed input is not a valid prefix but its text before
    the first ['/'] is a valid address, [FixSubnet] returns that address
    with 24 bits if it is an IPv4 address and 56 bits otherwise, and no
    error; and whenever it returns an error, the text before the first
    ['/'] is not a valid address. *)
Theorem FixSubnet_default_mask (s : string) :
  let fix_subnet := Utils.FixSubnet ParsePrefix ParseAddr Is4 PrefixFrom PrefixString in
  (forall e addr,
      ParsePrefix (TrimSpace s) = inr e ->
      ParseAddr (CutSlash (TrimSpace s)) = inl addr ->
      fix_subnet s = inl (PrefixString (PrefixFrom addr (if Is4 addr then 24 else 56)))) /\
  (forall err,
      fix_subnet s = inr err ->
      exists e, ParseAddr (CutSlash (TrimSpace s)) = inr e).
Proof.
  cbn zeta. unfold Utils.FixSubnet. split.
  - intros e addr -> ->. reflexivity.
  - intros err H. destruct (ParsePrefix (TrimSpace s)); [done|].
    destruct (ParseAddr (CutSlash (TrimSpace s))) as [addr|e']; [done|]. by exists e'.
Qed.

End FixSubnetProps.

Lemma FixSubnet_default_mask_witness :
  Netip4.ParseAddr (CutSlash (TrimSpace "1.2.3.4/abc")) = inl (1, 2, 3, 4) /\
  Netip4.FixSubnet "1.2.3.4/abc" = inl "1.2.3.4/24".
Proof.
  assert (H : Netip4.ParseAddr (CutSlash (TrimSpace "1.2.3.4/abc")) = inl (1, 2, 3, 4))
    by reflexivity.
  split; [exact H|].
  exact (proj1 (FixSubnet_default_mask Netip4.ParsePrefix Netip4.ParseAddr Netip4.Is4
                  Netip4.PrefixFrom Netip4.PrefixString "1.2.3.4/abc")
           _ (1, 2, 3, 4) eq_refl H).
Defined.

(** The three shapes the comment in [FixSubnet] names, and a prefix that
    is already valid. *)
Example FixSubnet_bare_ip : Netip4.FixSubnet " 1.2.3.4 " = inl "1.2.3.4/24".
Proof. reflexivity. Qed.

Example FixSubnet_empty_mask : Netip4.FixSubnet "1.2.3.4/" = inl "1.2.3.4/24".
Proof. reflexivity. Qed.

Example FixSubnet_valid_prefix : Netip4.FixSubnet "8.8.8.8/32" = inl "8.8.8.8/32".
Proof. reflexivity. Qed.

Example FixSubnet_bad_ip :
  Netip4.FixSubnet "1.2.3.256/24"
    = inr "invalid IP address: ParseAddr(1.2.3.256): unable to parse IP".
Proof. reflexivity. Qed.

(** * Further properties of the code *)

Import Request.

(** *** Trimming twice *)

Lemma string_app_assoc (a b c : string) : (a +:+ b) +:+ c = a +:+ b +:+ c.
Proof.
  induction a as [|x a IH]; [done|].
  change (String x a +:+ b) with (String x (a +:+ b)).
  change (String x (a +:+ b) +:+ c) with (String x ((a +:+ b) +:+ c)).
  by rewrite IH.
Qed.

Lemma string_app_nil_r (a : string) : a +:+ "" = a.
Proof.
  induction a as [|x a IH]; [done|].
  change (String x a +:+ "") with (String x (a +:+ "")). by rewrite IH.
Qed.

Lemma strip_prefix_Some (p s r : string) : strip_prefix p s = Some r -> s = p +:+ r.
Proof.
  revert s. induction p as [|a p IH]; intros s H; cbn in H.
  - by injection H as ->.
  - destruct s as [|b s]; [done|]. destruct (Ascii.eqb_spec a b) as [->|]; [|done].
    change (String b p +:+ r) with (String b (p +:+ r)). f_equal. by apply IH.
Qed.

Lemma strip_prefix_app (p s r y : string) :
  strip_prefix p s = Some r -> strip_prefix p (s +:+ y) = Some (r +:+ y).
Proof.
  revert s. induction p as [|a p IH]; intros s H; cbn in H.
  - by injection H as ->.
  - destruct s as [|b s]; [done|].
    change (String b s +:+ y) with (String b (s +:+ y)). cbn.
    destruct (Ascii.eqb a b); [by apply IH|done].
Qed.

Lemma first_stripped_Some (ps : list string) (s r : string) :
  first_stripped ps s = Some r -> exists p, p ∈ ps /\ s = p +:+ r.
Proof.
  induction ps as [|p ps IH]; [done|]. cbn.
  destruct (strip_prefix p s) as [r'|] eqn:E.
  - intros [= <-]. exists p. split; [apply list_elem_of_here|by apply strip_prefix_Some].
  - intros H. destruct (IH H) as (q & Hq & ->). exists q. split; [by apply list_elem_of_further|done].
Qed.

Lemma first_stripped_app (ps : list string) (s r y : string) :
  first_stripped ps s = Some r -> exists r', first_stripped ps (s +:+ y) = Some r'.
Proof.
  induction ps as [|p ps IH]; [done|]. cbn.
  destruct (strip_prefix p s) as [r'|] eqn:E.
  - intros _. rewrite (strip_prefix_app _ _ _ y E). eauto.
  - intros H. destruct (strip_prefix p (s +:+ y)); eauto.
Qed.

Lemma first_stripped_shorter (ps : list string) (s r : string) :
  (forall p, p ∈ ps -> (1 <= String.length p)%nat) ->
  first_stripped ps s = Some r ->
  (String.length r < String.length s)%nat.
Proof.
  intros Hne H. destruct (first_stripped_Some ps s r H) as (p & Hp & ->).
  rewrite string_length_app. specialize (Hne p Hp). lia.
Qed.

Lemma runes_nonempty (ps : list string) :
  forallb (fun p => (1 <=? String.length p)%nat) ps = true ->
  forall p, p ∈ ps -> (1 <= String.length p)%nat.
Proof.
  intros H p Hp. rewrite forallb_forall in H.
  apply Nat.leb_le, H. by apply list_elem_of_In.
Qed.

Lemma trim_left_fuel_spec (n : nat) :
  forall s, (String.length s <= n)%nat ->
    leading_space (trim_left_fuel n s) = None /\
    exists pre, s = pre +:+ trim_left_fuel n s.
Proof.
  induction n as [|n IH]; intros s Hn.
  - destruct s; [|cbn in Hn; lia]. split; [reflexivity|by exists ""].
  - cbn [trim_left_fuel]. destruct (leading_space s) as [r|] eqn:E.
    + assert (Hr : (String.length r < String.length s)%nat).
      { apply (first_stripped_shorter spaceRunes); [by apply runes_nonempty|done]. }
      destruct (IH r) as [Hnone [pre Hpre]]; [lia|]. split; [done|].
      destruct (first_stripped_Some _ _ _ E) as (p & _ & ->).
      exists (p +:+ pre). by rewrite string_app_assoc, <- Hpre.
    + split; [done|by exists ""].
Qed.

Lemma trim_left_fuel_fixed (n : nat) (s : string) :
  leading_space s = None -> trim_left_fuel n s = s.
Proof. intros H. destruct n; [done|]. cbn [trim_left_fuel trim_right_fuel]. by rewrite H. Qed.

Lemma trim_right_fuel_spec (n : nat) :
  forall s, (String.length s <= n)%nat ->
    trailing_space_rev (trim_right_fuel n s) = None /\
    exists pre, s = pre +:+ trim_right_fuel n s.
Proof.
  induction n as [|n IH]; intros s Hn.
  - destruct s; [|cbn in Hn; lia]. split; [reflexivity|by exists ""].
  - cbn [trim_right_fuel]. destruct (trailing_space_rev s) as [r|] eqn:E.
    + assert (Hr : (String.length r < String.length s)%nat).
      { apply (first_stripped_shorter (map rev spaceRunes)); [by apply runes_nonempty|done]. }
      destruct (IH r) as [Hnone [pre Hpre]]; [lia|]. split; [done|].
      destruct (first_stripped_Some _ _ _ E) as (p & _ & ->).
      exists (p +:+ pre). by rewrite string_app_assoc, <- Hpre.
    + split; [done|by exists ""].
Qed.

Lemma trim_right_fuel_fixed (n : nat) (s : string) :
  trailing_space_rev s = None -> trim_right_fuel n s = s.
Proof. intros H. destruct n; [done|]. cbn [trim_left_fuel trim_right_fuel]. by rewrite H. Qed.

Lemma list_ascii_app (a b : string) :
  String.list_ascii_of_string (a +:+ b)
    = String.list_ascii_of_string a ++ String.list_ascii_of_string b.
Proof.
  induction a as [|x a IH]; [done|].
  change (String x a +:+ b) with (String x (a +:+ b)). cbn. by rewrite IH.
Qed.

Lemma string_of_list_app (l1 l2 : list ascii) :
  String.string_of_list_ascii (l1 ++ l2)
    = String.string_of_list_ascii l1 +:+ String.string_of_list_ascii l2.
Proof. induction l1 as [|x l1 IH]; [done|]. cbn. by rewrite IH. Qed.

Lemma rev_app (a b : string) : rev (a +:+ b) = rev b +:+ rev a.
Proof. unfold rev. by rewrite list_ascii_app, rev_app_distr, string_of_list_app. Qed.

Lemma rev_rev (s : string) : rev (rev s) = s.
Proof.
  unfold rev. rewrite String.list_ascii_of_string_of_list_ascii, rev_involutive.
  apply String.string_of_list_ascii_of_string.
Qed.

Lemma rev_length (s : string) : String.length (rev s) = String.length s.
Proof.
  assert (H : forall l, String.length (String.string_of_list_ascii l) = length l).
  { induction l as [|x l IH]; [done|]. cbn. by rewrite IH. }
  assert (H' : forall t, length (String.list_ascii_of_string t) = String.length t).
  { induction t as [|x t IH]; [done|]. cbn. by rewrite IH. }
  unfold rev. by rewrite H, length_rev, H'.
Qed.

(** [TrimSpace] leaves no white space at either end, and leaves alone what
    has none. *)
Lemma TrimSpace_trimmed (s : string) :
  leading_space (TrimSpace s) = None /\ trailing_space_rev (rev (TrimSpace s)) = None.
Proof.
  unfold TrimSpace, TrimRight, TrimLeft.
  destruct (trim_left_fuel_spec (String.length s) s) as [Hl _]; [done|].
  set (x := trim_left_fuel (String.length s) s) in *.
  destruct (trim_right_fuel_spec (String.length x) (rev x)) as [Hr [pre Hpre]].
  { by rewrite rev_length. }
  set (y := trim_right_fuel (String.length x) (rev x)) in *.
  split; [|by rewrite rev_rev].
  destruct (leading_space (rev y)) as [r|] eqn:E; [|done].
  destruct (first_stripped_app _ _ _ (rev pre) E) as [r' Hr'].
  rewrite <- rev_app, <- Hpre, rev_rev in Hr'. unfold leading_space in Hl. congruence.
Qed.

Lemma TrimSpace_fixed (s : string) :
  leading_space s = None -> trailing_space_rev (rev s) = None -> TrimSpace s = s.
Proof.
  intros Hl Hr. unfold TrimSpace, TrimRight, TrimLeft.
  rewrite (trim_left_fuel_fixed (String.length s) s Hl).
  rewrite (trim_right_fuel_fixed (String.length s) (rev s) Hr). apply rev_rev.
Qed.

Lemma TrimSpace_idempotent (s : string) : TrimSpace (TrimSpace s) = TrimSpace s.
Proof. destruct (TrimSpace_trimmed s). by apply TrimSpace_fixed. Qed.

(** ** [cache.go]: reads and writes together *)

(** X1: [Set] on one key leaves every other key as it was: what [Get]
    returns for another key, at any time, is unchanged. *)
Theorem cache_set_other_key {V : Type} (c : Cache.cache V) (key key' : string) (v : V)
    (ttl now t : Z) :
  key ≠ key' ->
  Cache.Get (Cache.Set_ c key v ttl now) key' t = Cache.Get c key' t.
Proof.
  intros Hne. unfold Cache.Get, Cache.Set_. cbn [Cache.items].
  by rewrite lookup_insert_ne.
Qed.

Lemma cache_set_other_key_witness :
  let c := Cache.Set_ (Cache.newCache (V := string)) "a" "1" 60 0 in
  "b" ≠ "a" /\
  Cache.Get (Cache.Set_ c "b" "2" 5 10) "a" 20 = Some "1".
Proof.
  intros c. assert (H : "b" ≠ "a") by done.
  split; [exact H|].
  rewrite (cache_set_other_key c "b" "a" "2" 5 10 20 H). reflexivity.
Defined.

(** X2: the last write wins: a second [Set] on a key replaces the value and
    the expiration of the first, whatever they were, so a short TTL
    written over a long one shortens the entry's life. *)
Theorem cache_set_overwrites {V : Type} (c : Cache.cache V) (key : string) (v1 v2 : V)
    (ttl1 ttl2 now1 now2 : Z) :
  Cache.Set_ (Cache.Set_ c key v1 ttl1 now1) key v2 ttl2 now2 = Cache.Set_ c key v2 ttl2 now2 /\
  forall t,
    Cache.Get (Cache.Set_ (Cache.Set_ c key v1 ttl1 now1) key v2 ttl2 now2) key t
      = if t >? GoInt.add now2 (GoInt.mul ttl2 Cache.Second) then None else Some v2.
Proof.
  split.
  - unfold Cache.Set_. cbn [Cache.items]. by rewrite insert_insert_eq.
  - intros t. unfold Cache.Get. by rewrite Set_lookup.
Qed.

(** X3: expiry only moves one way: an entry [Get] finds at some instant is
    found, with the same value, at every earlier instant, and one it does
    not find is not found at any later instant; reading never brings an
    entry back. *)
Theorem cache_get_earlier {V : Type} (c : Cache.cache V) (key : string) (t t' : Z) :
  t <= t' ->
  (forall v, Cache.Get c key t' = Some v -> Cache.Get c key t = Some v) /\
  (Cache.Get c key t = None -> Cache.Get c key t' = None).
Proof.
  intros Hle. unfold Cache.Get. destruct (Cache.items c !! key) as [item|]; [|done].
  destruct (Z.gtb_spec t' (Cache.expiration item)), (Z.gtb_spec t (Cache.expiration item));
    try done; lia.
Qed.

Lemma cache_get_earlier_witness :
  let c := Cache.Set_ (Cache.newCache (V := string)) "k" "v" 1 0 in
  5 <= 1000000000 /\
  Cache.Get c "k" 1000000000 = Some "v" /\
  Cache.Get c "k" 5 = Some "v".
Proof.
  intros c. assert (H : 5 <= 1000000000) by lia.
  split; [exact H|]. split; [reflexivity|].
  exact (proj1 (cache_get_earlier c "k" 5 1000000000 H) "v" eq_refl).
Defined.

(** ** [checkCache] after [updateCache] *)

(** The TTL [updateCache] passes to [Set]. *)
Lemma updateCache_lookup (ch : Cache.cache Response) (d t : string) (resp : Response)
    (s : list string) (now : Z) :
  Cache.items (updateCache ch d t resp s now) !! cacheKey d t s
    = Some (Cache.CacheItem resp
              (GoInt.add now (GoInt.mul (match Answers resp with
                                         | a :: _ => TTL a
                                         | [] => 30
                                         end) Cache.Second))).
Proof. unfold updateCache. apply Set_lookup. Qed.

(** X4: the round trip of the response cache.  After [updateCache] for a
    query, [checkCache] for the same domain, type and subnet returns the
    stored response up to and including the instant [now + ttl * 1e9], with
    [ttl] the first answer's TTL (30 without answers), and nothing after
    it; so a response whose first answer has TTL 0 can only be read back
    in the nanosecond it was stored. *)
Theorem cache_round_trip (ch : Cache.cache Response) (d t : string) (resp : Response)
    (s : list string) (now now' : Z) :
  let ttl := match Answers resp with
             | a :: _ => TTL a
             | [] => 30
             end in
  GoInt.in_int64 now ->
  GoInt.in_int64 (ttl * Cache.Second) ->
  GoInt.in_int64 (now + ttl * Cache.Second) ->
  checkCache (updateCache ch d t resp s now) d t s now'
    = if now' >? now + ttl * Cache.Second then None else Some resp.
Proof.
  intros ttl Hnow Hmul Hsum. unfold checkCache, Cache.Get.
  rewrite updateCache_lookup. fold ttl. cbn [Cache.expiration Cache.value].
  unfold GoInt.add, GoInt.mul, GoInt.in_int64 in *.
  by rewrite (wrap64_small (ttl * _)), wrap64_small.
Qed.

Lemma cache_round_trip_witness :
  let resp := MkResponse 0 false true true false false []
                [MkAnswer "example.com." 1 0 "1.2.3.4"] "https://a/dns-query" in
  let ch := updateCache Cache.newCache "example.com" "A" resp [] 1000 in
  GoInt.in_int64 1000 /\
  checkCache ch "example.com" "A" [] 1000 = Some resp /\
  checkCache ch "example.com" "A" [] 1001 = None.
Proof.
  intros resp ch.
  assert (H1 : GoInt.in_int64 1000) by (unfold GoInt.in_int64; lia).
  assert (H2 : GoInt.in_int64 (0 * Cache.Second)) by (unfold GoInt.in_int64; cbn; lia).
  assert (H3 : GoInt.in_int64 (1000 + 0 * Cache.Second)) by (unfold GoInt.in_int64; cbn; lia).
  split; [exact H1|]. split.
  - exact (cache_round_trip Cache.newCache "example.com" "A" resp [] 1000 1000 H1 H2 H3).
  - exact (cache_round_trip Cache.newCache "example.com" "A" resp [] 1000 1001 H1 H2 H3).
Defined.

(** ** [fastQuery]: the cache around the race *)

Lemma launch_stats (run : Z -> string -> queryResult) (order : list (Z * string)) :
  forall st : gmap Z stat, (launch st run order).1 = recordAll st (raceTrace run order).
Proof.
  induction order as [|[k u] order IH]; intros st; [reflexivity|].
  cbn [launch goQuery]. specialize (IH (recordAttempt st k (failed (run k u)))).
  destruct (launch _ run order) as [st2 vs]. cbn [fst] in *. by rewrite IH.
Qed.

(** The two ways [fastQuery] comes back: from the cache, the client
    unchanged; or from the race, the attempts recorded and, on a success
    with a cache, the response stored. *)
Lemma fastQuery_returns (c c' : DoH) (us : gmap Z string) (d t : string) (s : list string)
    (run : Z -> string -> queryResult) (order : list (Z * string)) (now now' : Z)
    (res : queryResult) :
  fastQuery c us d t s run order now now' = Returns (res, c') ->
  (exists ch resp, cache c = Some ch /\ checkCache ch d t s now = Some resp /\
                   res = (Some resp, None) /\ c' = c) \/
  (match cache c with
   | Some ch => checkCache ch d t s now = None
   | None => True
   end /\
   collectResponses (launch (stats c) run order).2 (Z.of_nat (size us)) = Returns res /\
   urls c' = urls c /\
   stats c' = recordAll (stats c) (raceTrace run order) /\
   cache c' = match res.2, cache c, res.1 with
              | None, Some ch, Some rr => Some (updateCache ch d t rr s now')
              | _, _, _ => cache c
              end).
Proof.
  unfold fastQuery. intros H.
  destruct (match cache c with
            | Some ch => checkCache ch d t s now
            | None => None
            end) as [resp|] eqn:Hhit.
  - left. destruct (cache c) as [ch|]; [|done]. exists ch, resp. by simplify_eq.
  - right. rewrite <- launch_stats.
    split; [by destruct (cache c)|].
    destruct (launch (stats c) run order) as [st r]. cbn [fst snd].
    destruct (collectResponses r (Z.of_nat (size us))) as [[resp err]| |]; [|done|done].
    destruct err as [e|]; [by simplify_eq|].
    destruct (cache c) as [ch|]; [|by simplify_eq].
    destruct resp as [rr|]; [|done]. by simplify_eq.
Qed.

(** X5: a repeated query is served from the cache.  When a query missed the
    cache, was won by a response and stored, the same query (domain, type,
    subnet) asked again no later than [ttl] seconds after the store returns
    that response and leaves the client as it is: no attempt is made or
    recorded, whatever providers it is given, none included. *)
Theorem repeat_query_served_from_cache
    (c c' : DoH) (ch : Cache.cache Response) (us : gmap Z string) (d t : string)
    (s : list string) (run : Z -> string -> queryResult) (order : list (Z * string))
    (now now' : Z) (resp : Response) :
  let ttl := match Answers resp with
             | a :: _ => TTL a
             | [] => 30
             end in
  cache c = Some ch ->
  checkCache ch d t s now = None ->
  fastQuery c us d t s run order now now' = Returns ((Some resp, None), c') ->
  GoInt.in_int64 now' ->
  GoInt.in_int64 (ttl * Cache.Second) ->
  GoInt.in_int64 (now' + ttl * Cache.Second) ->
  forall (us2 : gmap Z string) (run2 : Z -> string -> queryResult)
         (order2 : list (Z * string)) (now2 now2' : Z),
    now2 <= now' + ttl * Cache.Second ->
    fastQuery c' us2 d t s run2 order2 now2 now2' = Returns ((Some resp, None), c').
Proof.
  intros ttl Hch Hmiss H Hnow Hmul Hsum us2 run2 order2 now2 now2' Hle.
  apply fastQuery_returns in H as [(ch' & resp' & ? & ? & ? & ?)|(_ & _ & _ & _ & Hc')];
    [congruence|].
  rewrite Hch in Hc'. cbn [fst snd] in Hc'.
  unfold fastQuery. rewrite Hc', (cache_round_trip ch d t resp s now' now2 Hnow Hmul Hsum).
  fold ttl. by replace (now2 >? now' + ttl * Cache.Second) with false by lia.
Qed.

Lemma repeat_query_served_from_cache_witness :
  let u := "https://a/dns-query" in
  let resp := MkResponse 0 false true true false false []
                [MkAnswer "example.com." 1 60 "1.2.3.4"] u in
  let c := EnableCache (New [u]) true in
  exists c',
    fastQuery c {[0 := u]} "example.com" "A" [] (fun _ _ => (Some resp, None)) [(0, u)] 5 7
      = Returns ((Some resp, None), c') /\
    fastQuery c' ∅ "example.com" "A" [] (fun _ _ => (None, Some "unreachable")) [] 60000000007 0
      = Returns ((Some resp, None), c').
Proof.
  intros u resp c. eexists. split; [reflexivity|].
  apply (repeat_query_served_from_cache c _ Cache.newCache {[0 := u]} "example.com" "A" []
           (fun _ _ => (Some resp, None)) [(0, u)] 5 7 resp eq_refl eq_refl eq_refl);
    unfold GoInt.in_int64, Cache.Second; cbn; lia.
Defined.

(** X6: a query that fails returns no response and writes nothing to the
    cache; and [fastQuery] never changes the provider list, nor does it
    give a cache to a client without one or take it from a client with
    one. *)
Theorem failed_query_leaves_cache
    (c c' : DoH) (us : gmap Z string) (d t : string) (s : list string)
    (run : Z -> string -> queryResult) (order : list (Z * string)) (now now' : Z)
    (res : queryResult) :
  fastQuery c us d t s run order now now' = Returns (res, c') ->
  urls c' = urls c /\
  (cache c' = None <-> cache c = None) /\
  (forall err, res.2 = Some err -> res.1 = None /\ cache c' = cache c).
Proof.
  intros H. apply fastQuery_returns in H
    as [(ch & resp & Hch & _ & -> & ->)|(_ & Hres & Hurls & _ & Hc')].
  - split; [done|]. split; [done|]. intros err [=].
  - split; [done|]. split.
    + rewrite Hc'. destruct res.2, (cache c), res.1; done.
    + intros err Herr. rewrite Herr in Hc'. split; [|done].
      destruct res as [resp err']. cbn in Herr. subst err'.
      apply collectLoop_result in Hres as [[? _]|[? _]]; done.
Qed.

Lemma failed_query_leaves_cache_witness :
  let u := "https://a/dns-query" in
  let c := EnableCache (New [u]) true in
  exists c',
    fastQuery c {[0 := u]} "example.com" "A" [] (fun _ _ => (None, Some "timeout")) [(0, u)] 5 7
      = Returns ((None, Some "timeout"), c') /\
    cache c' = cache c.
Proof.
  intros u c. eexists. split; [reflexivity|].
  exact (proj2 (proj2 (proj2 (failed_query_leaves_cache c _ {[0 := u]} "example.com" "A" []
                                (fun _ _ => (None, Some "timeout")) [(0, u)] 5 7 _ eq_refl))
                  "timeout" eq_refl)).
Defined.

(** ** [Query]: which providers, and that it comes back *)

Lemma scanStats_key (it : list (Z * stat)) :
  (scanStats it).1 = -1 \/ exists s, ((scanStats it).1, s) ∈ it.
Proof.
  destruct (scan_result it (-1, 101%float)) as [[H|(s & H & _)] _]; cbn zeta in *.
  - left. unfold scanStats. by rewrite H.
  - right. by exists s.
Qed.

Lemma addAll_size (us : list string) :
  forall (i : Z) (m : gmap Z string), (size (addAll i us m) <= size m + length us)%nat.
Proof.
  induction us as [|u us IH]; intros i m; cbn [addAll length]; [lia|].
  etransitivity; [apply IH|]. rewrite map_size_insert. destruct (m !! i); unfold id; lia.
Qed.

Lemma urlAt_Some (us : list string) (k : Z) :
  0 <= k < Z.of_nat (length us) -> exists u, urlAt us k = Some u.
Proof.
  intros H. unfold urlAt. replace (k <? 0) with false by lia.
  apply lookup_lt_is_Some. lia.
Qed.

Lemma urlAt_range (us : list string) (k : Z) (u : string) :
  urlAt us k = Some u -> 0 <= k < Z.of_nat (length us).
Proof.
  unfold urlAt. destruct (Z.ltb_spec k 0) as [|Hk]; [done|].
  intros Hu%lookup_lt_Some. lia.
Qed.

(** What [Query] hands to [fastQuery] on a well-formed client. *)
Lemma selectProviders_wellFormed (c : DoH) (it : list (Z * stat)) :
  wellFormed c ->
  it ≡ₚ map_to_list (stats c) ->
  exists us,
    selectProviders c it = Returns us /\
    us ≠ ∅ /\
    (forall k u, us !! k = Some u -> urlAt (urls c) k = Some u) /\
    (size us <= length (urls c))%nat.
Proof.
  intros (Hne & Hlen & Hkeys) Hit.
  assert (Hall : addAll 0 (urls c) ∅ ≠ ∅ /\
                 (forall k u, addAll 0 (urls c) ∅ !! k = Some u -> urlAt (urls c) k = Some u) /\
                 (size (addAll 0 (urls c) ∅) <= length (urls c))%nat).
  { split; [|split].
    - intros E. apply (f_equal (fun m => m !! 0)) in E.
      rewrite addAll_all, lookup_empty in E. unfold urlAt in E. cbn in E.
      by destruct (urls c).
    - intros k u. by rewrite addAll_all.
    - pose proof (addAll_size (urls c) 0 ∅) as H. by rewrite map_size_empty in H. }
  unfold selectProviders.
  destruct (0 <? size (stats c))%nat; [|rewrite map_size_empty; cbn; eauto].
  destruct (scanStats_key it) as [E|[s Hs]]; destruct (scanStats it) as [k r]; cbn [fst] in *.
  - subst k. cbn. rewrite map_size_empty. cbn. eauto.
  - destruct (Z.eqb_spec k (-1)) as [->|Hk]; [rewrite map_size_empty; cbn; eauto|].
    rewrite Hit in Hs. apply elem_of_map_to_list in Hs.
    destruct (urlAt_Some (urls c) k (Hkeys _ _ Hs)) as [u Hu]. rewrite Hu.
    rewrite insert_empty, map_size_singleton. cbn.
    exists {[k := u]}. split; [done|]. split; [apply insert_non_empty|]. split.
    + intros j v [<- <-]%lookup_singleton_Some. done.
    + rewrite map_size_singleton. destruct (urls c); [done|cbn; lia].
Qed.

(** X7: on a client whose records belong to configured providers, the
    selection in [Query] never indexes [urls] out of range, and what it
    passes to [fastQuery] is never empty and maps indices to the URLs
    configured at them, whatever the rates recorded (a NaN included) and
    whatever the order of [range]. *)
Theorem selection_never_panics (c : DoH) (it : list (Z * stat)) :
  wellFormed c ->
  it ≡ₚ map_to_list (stats c) ->
  selectProviders c it ≠ Panics /\
  forall us, selectProviders c it = Returns us ->
    (exists k u, us !! k = Some u) /\
    (forall k u, us !! k = Some u -> urls c !! Z.to_nat k = Some u /\ 0 <= k).
Proof.
  intros Hwf Hit.
  destruct (selectProviders_wellFormed c it Hwf Hit) as (us & Hsel & Hne & Hurl & _).
  rewrite Hsel. split; [done|]. intros us' [= <-]. split.
  - destruct (map_choose _ Hne) as (k & u & H). eauto.
  - intros k u H. specialize (Hurl k u H). pose proof (urlAt_range _ _ _ Hurl).
    unfold urlAt in Hurl. replace (k <? 0) with false in Hurl by lia. split; [done|lia].
Qed.

Lemma selection_never_panics_witness :
  let c := MkDoH ["https://a/dns-query"; "https://b/dns-query"] None
             {[1 := MkStat 0 1 0%float]} in
  let it := [(1, MkStat 0 1 0%float)] in
  wellFormed c /\ it ≡ₚ map_to_list (stats c) /\ selectProviders c it ≠ Panics.
Proof.
  intros c it.
  assert (Hwf : wellFormed c).
  { split; [done|]. split; [by vm_compute|].
    intros k s H. cbn [stats c] in H.
    apply lookup_singleton_Some in H as [<- <-]. by vm_compute. }
  assert (Hit : it ≡ₚ map_to_list (stats c)) by (vm_compute; reflexivity).
  split; [exact Hwf|]. split; [exact Hit|].
  exact (proj1 (selection_never_panics c it Hwf Hit)).
Defined.
